(** * First Words Tracker: practice recommendations and vocabulary growth

    A shallow embedding of the two computations of [app.py] that carry
    logic: [get_practice_words] (the five words to practise next) and
    [create_vocabulary_chart] (cumulative vocabulary by age in months),
    together with [calculate_age_in_months], and of the forms of [main]
    that change the stored data.

    Python integers are [Z], strings are [string], dictionaries are
    [gmap], the set comprehension is a [gset].  A dictionary read off
    [data.json] becomes a record; a key that the code reads with
    [.get(key, default)] is an [option] field.  The reference table that
    [load_typical_words] reads from disk is an argument of the embedding:
    a list of rows in file order. *)

From Stdlib Require Import Ascii.
From stdpp Require Import gmap strings list fin_maps pretty sorting.

Local Open Scope Z_scope.

(** ** Library functions

    [str.lower] and [datetime.strptime(_, "%Y-%m-%d")] belong to the Python
    runtime, not to the program.  The development is parametric in them:
    every theorem holds for whatever they compute.  [strptime] answers
    [None] where Python raises [ValueError]. *)

Record datetime := { year : Z; month : Z; day : Z }.

Class PyRuntime := {
  lower : string → string;
  strptime : string → option datetime
}.

(** ** Data *)

(** An entry of [child_data["words"]]. *)
Record WordEntry := {
  word : string;
  date_added : string;
  speaks : bool;
  asl : bool;
  confidence : option Z   (* read with [.get("confidence", 0)] *)
}.

(** [child_data]. *)
Record Child := {
  words : list WordEntry;
  birthday : option string   (* tested with ["birthday" not in child_data] *)
}.

(** A value of the ["Learning Strategy"] column as [read_csv] gives it: the
    text of the cell, or the float [nan] for an empty cell. *)
Inductive Cell :=
  | Text (s : string)
  | NaN.

(** A row of the typical-words table.  The ["Learning Strategy"] column is
    optional and the code reads it with [row.get]: the field is [None] when
    the table has no such column, as then for all its rows. *)
Record Row := {
  Word : string;
  Typical_Age : Z;
  Learning_Strategy : option Cell
}.

(** A dictionary of the list [get_practice_words] returns. *)
Record PracticeWord := {
  pw_word : string;
  pw_confidence : Z;
  typical_age : Z;
  in_vocab : bool;
  strategy : Cell
}.

Definition default_strategy : string :=
  "Practice this word regularly with your child.".

(** ** Sorting

    [list.sort(key=...)] and [sorted] are stable and ascending; insertion
    from the right, placing an element before the first one whose key is
    not smaller, is such a sort. *)

Fixpoint insert_by {A} (key : A → Z) (x : A) (l : list A) : list A :=
  match l with
  | [] => [x]
  | y :: l' => if key x <=? key y then x :: l else y :: insert_by key x l'
  end.

Fixpoint sort_by {A} (key : A → Z) (l : list A) : list A :=
  match l with
  | [] => []
  | x :: l' => insert_by key x (sort_by key l')
  end.

Definition sorted (l : list Z) : list Z := sort_by id l.

(** Entries of [l] whose key is [k], in the order of [l]. *)
Definition with_key {A} (key : A → Z) (k : Z) (l : list A) : list A :=
  filter (λ x, key x = k) l.

(** ** Exceptions

    The only exception the two computations can raise on data of the shape
    above is the [ValueError] of [strptime]. *)

Inductive exn := ValueError.

Inductive result (A : Type) :=
  | Ok (a : A)
  | Raise (e : exn).
Global Arguments Ok {A} a.
Global Arguments Raise {A} e.

Definition bind {A B} (r : result A) (k : A → result B) : result B :=
  match r with
  | Ok a => k a
  | Raise e => Raise e
  end.

Notation "'let*' x ':=' r 'in' k" := (bind r (λ x, k))
  (at level 10, x name, r at level 100, k at level 200).

Section Core.
Context `{PyRuntime}.

(** ** get_practice_words *)

(** The two dictionary comprehensions over the rows: a later row with the
    same lower-cased word overwrites an earlier one. *)
Definition typical_words_order (typical_words_df : list Row) : gmap string Z :=
  foldl (λ d row, <[lower (Word row) := Typical_Age row]> d) ∅ typical_words_df.

Definition typical_words_strategies (typical_words_df : list Row)
  : gmap string Cell :=
  foldl (λ d row, <[lower (Word row) := default (Text "") (Learning_Strategy row)]> d)
        ∅ typical_words_df.

Definition get_confidence (word_entry : WordEntry) : Z :=
  default 0 (confidence word_entry).

(** The dictionary appended for a low-confidence entry. *)
Definition low_confidence_word (order : gmap string Z)
    (strategies : gmap string Cell) (word_entry : WordEntry) : PracticeWord :=
  let word_lower := lower (word word_entry) in
  {| pw_word := word word_entry;
     pw_confidence := get_confidence word_entry;
     typical_age := default 999 (order !! word_lower);
     in_vocab := true;
     strategy := default (Text default_strategy) (strategies !! word_lower) |}.

(** The loop over [child_data.get("words", [])]. *)
Fixpoint low_confidence_words (order : gmap string Z)
    (strategies : gmap string Cell) (ws : list WordEntry) : list PracticeWord :=
  match ws with
  | [] => []
  | word_entry :: ws' =>
      if get_confidence word_entry <? 50
      then low_confidence_word order strategies word_entry
           :: low_confidence_words order strategies ws'
      else low_confidence_words order strategies ws'
  end.

(** The dictionary appended for a row of the table. *)
Definition typical_word (row : Row) : PracticeWord :=
  {| pw_word := Word row;
     pw_confidence := 0;
     typical_age := Typical_Age row;
     in_vocab := false;
     strategy := default (Text default_strategy) (Learning_Strategy row) |}.

Definition child_words_lower (child_data : Child) : gset string :=
  list_to_set (map (λ w, lower (word w)) (words child_data)).

(** The loop over the rows, with its [break]. *)
Fixpoint add_typical_words (known : gset string) (rows : list Row)
    (practice_words : list PracticeWord) : list PracticeWord :=
  match rows with
  | [] => practice_words
  | row :: rows' =>
      if 5 <=? Z.of_nat (length practice_words) then practice_words
      else if decide (lower (Word row) ∈ known)
      then add_typical_words known rows' practice_words
      else add_typical_words known rows' (practice_words ++ [typical_word row])
  end.

Definition get_practice_words (typical_words_df : list Row) (child_data : Child)
  : list PracticeWord :=
  let order := typical_words_order typical_words_df in
  let strategies := typical_words_strategies typical_words_df in
  let low := sort_by typical_age
               (low_confidence_words order strategies (words child_data)) in
  let practice_words := take 5 low in
  let practice_words :=
    if Z.of_nat (length practice_words) <? 5
    then add_typical_words (child_words_lower child_data)
                           typical_words_df practice_words
    else practice_words in
  take 5 practice_words.

(** ** calculate_age_in_months and create_vocabulary_chart *)

Definition parse_date (s : string) : result datetime :=
  match strptime s with
  | Some d => Ok d
  | None => Raise ValueError
  end.

Definition calculate_age_in_months (birthdate target_date : string) : result Z :=
  let* birth := parse_date birthdate in
  let* target := parse_date target_date in
  Ok ((year target - year birth) * 12 + month target - month birth).

(** [words_by_age[age_months].append(word)] on a [defaultdict(list)],
    for each entry in turn. *)
Fixpoint group_words_by_age (birthday : string) (ws : list WordEntry)
    (words_by_age : gmap Z (list string)) : result (gmap Z (list string)) :=
  match ws with
  | [] => Ok words_by_age
  | word_entry :: ws' =>
      let* age_months := calculate_age_in_months birthday (date_added word_entry) in
      group_words_by_age birthday ws'
        (<[age_months := default [] (words_by_age !! age_months) ++ [word word_entry]]>
           words_by_age)
  end.

(** The four lists the second loop fills, and its running total. *)
Record Series := {
  cumulative_count : list Z;
  age_labels : list string;
  words_per_period : list Z;
  word_lists : list string
}.

Definition age_label (age : Z) : string := pretty age +:+ " months".

Fixpoint accumulate (words_by_age : gmap Z (list string)) (sorted_ages : list Z)
    (cumulative_total : Z) (s : Series) : Series :=
  match sorted_ages with
  | [] => s
  | age :: ages =>
      let words_at_age := default [] (words_by_age !! age) in
      let cumulative_total := cumulative_total + Z.of_nat (length words_at_age) in
      accumulate words_by_age ages cumulative_total
        {| cumulative_count := cumulative_count s ++ [cumulative_total];
           age_labels := age_labels s ++ [age_label age];
           words_per_period := words_per_period s ++ [Z.of_nat (length words_at_age)];
           word_lists := word_lists s ++ [String.concat "<br>" words_at_age] |}
  end.

Definition empty_series : Series :=
  {| cumulative_count := []; age_labels := []; words_per_period := [];
     word_lists := [] |}.

(** What the returned figure shows: the bar trace and the title. *)
Record Figure := {
  x : list string;
  y : list Z;
  customdata : list (Z * string);
  title : string
}.

Definition create_vocabulary_chart (child_data : Child) (child_name : string)
  : result (option Figure) :=
  match words child_data, birthday child_data with
  | [], _ | _, None => Ok None
  | ws, Some birthday =>
      let* words_by_age := group_words_by_age birthday ws ∅ in
      let sorted_ages := sorted (elements (dom words_by_age)) in
      let s := accumulate words_by_age sorted_ages 0 empty_series in
      Ok (Some {| x := age_labels s;
                  y := cumulative_count s;
                  customdata := zip (words_per_period s) (word_lists s);
                  title := child_name +:+ "'s Vocabulary Growth" |})
  end.

End Core.

(** ** load_typical_words

    The table file is an argument: [None] when [typical_baby_words.csv] does
    not exist, the rows [read_csv] yields otherwise.  Without the file the
    frame has the two columns and no row. *)

Definition load_typical_words (typical_words_file : option (list Row))
  : list Row :=
  match typical_words_file with
  | Some rows => rows
  | None => []
  end.

(** ** main: the store and the forms

    [data] is [st.session_state.data], the dictionary with the user and the
    children by name; [data_file] is what [data.json] holds, [None] when the
    file does not exist.  An [Event] is one run of the script in which a
    button was pressed, with the values of its form; a date arrives as
    [strftime("%Y-%m-%d")] renders it.  [main] answers [None] when the page
    shown for the store has no such button. *)

(** [str.strip] belongs to the Python runtime. *)
Class PyText := { strip : string → string }.

Record Data := {
  user : option string;
  children : gmap string Child
}.

Record App := {
  data : Data;
  data_file : option Data
}.

Definition load_data (file : option Data) : Data :=
  match file with
  | Some stored => stored
  | None => {| user := None; children := ∅ |}
  end.

(** [save_data(data)]: the file now holds [data]. *)
Definition save_data (d : Data) : App :=
  {| data := d; data_file := Some d |}.

(** The first run: [st.session_state.data = load_data()]. *)
Definition start (file : option Data) : App :=
  {| data := load_data file; data_file := file |}.

Inductive Event :=
  | Register (user_name : string)
  | Logout
  | AddChild (child_name child_birthday : string)
  | AddBirthday (selected_child new_birthday : string)
  | AddWord (selected_child new_word word_date : string)
            (speaks_box asl_box : bool) (slider : Z)
  | SaveChanges (selected_child : string) (idx : nat)
                (edit_word edit_date : string)
                (edit_speaks edit_asl : bool) (edit_confidence : Z)
  | DeleteWord (selected_child : string) (idx : nat)
  | DeleteChild (selected_child : string).

(** How a run ends: [save_data] and [st.rerun()], or [st.error(msg)]. *)
Inductive Feedback :=
  | Rerun
  | Error (msg : string).

Definition set_user (d : Data) (u : option string) : Data :=
  {| user := u; children := children d |}.

Definition set_child (d : Data) (name : string) (child_data : Child) : Data :=
  {| user := user d; children := <[name := child_data]> (children d) |}.

Definition set_words (child_data : Child) (ws : list WordEntry) : Child :=
  {| words := ws; birthday := birthday child_data |}.

(** The position in [child_data["words"]] of the entry that the list, shown
    newest first, has at position [idx]. *)
Definition actual_idx (child_data : Child) (idx : nat) : nat :=
  (length (words child_data) - 1 - idx)%nat.

Section Main.
Context `{PyText}.

Definition register (app : App) (user_name : string) : App * Feedback :=
  if decide (user_name = "")
  then (app, Error "Please enter your name")
  else (save_data (set_user (data app) (Some user_name)), Rerun).

Definition logout (app : App) : App * Feedback :=
  (save_data (set_user (data app) None), Rerun).

Definition add_child (app : App) (child_name child_birthday : string)
  : App * Feedback :=
  if decide (child_name = "")
  then (app, Error "Please enter a name")
  else match children (data app) !! child_name with
       | Some _ => (app, Error "Child already exists")
       | None =>
           (save_data (set_child (data app) child_name
                         {| words := []; birthday := Some child_birthday |}),
            Rerun)
       end.

Definition add_birthday (app : App) (selected_child : string)
    (child_data : Child) (new_birthday : string) : App * Feedback :=
  (save_data (set_child (data app) selected_child
                {| words := words child_data; birthday := Some new_birthday |}),
   Rerun).

Definition add_word (app : App) (selected_child : string) (child_data : Child)
    (new_word word_date : string) (speaks_box asl_box : bool) (slider : Z)
  : App * Feedback :=
  if decide (new_word = "")
  then (app, Error "Please enter a word")
  else
    let word_entry :=
      {| word := strip new_word; date_added := word_date;
         speaks := speaks_box; asl := asl_box; confidence := Some slider |} in
    (save_data (set_child (data app) selected_child
                  (set_words child_data (words child_data ++ [word_entry]))),
     Rerun).

Definition save_changes (app : App) (selected_child : string)
    (child_data : Child) (idx : nat) (edit_word edit_date : string)
    (edit_speaks edit_asl : bool) (edit_confidence : Z) : App * Feedback :=
  let word_entry :=
    {| word := strip edit_word; date_added := edit_date;
       speaks := edit_speaks; asl := edit_asl;
       confidence := Some edit_confidence |} in
  (save_data (set_child (data app) selected_child
                (set_words child_data
                   (<[actual_idx child_data idx := word_entry]>
                      (words child_data)))),
   Rerun).

Definition delete_word (app : App) (selected_child : string)
    (child_data : Child) (idx : nat) : App * Feedback :=
  (save_data (set_child (data app) selected_child
                (set_words child_data
                   (delete (actual_idx child_data idx) (words child_data)))),
   Rerun).

Definition delete_child (app : App) (selected_child : string) : App * Feedback :=
  (save_data {| user := user (data app);
                children := delete selected_child (children (data app)) |},
   Rerun).

(** The forms of the selected child.  The birthday form is shown when the
    child has words and no birthday; an entry has its edit form. *)
Definition child_form (app : App) (selected_child : string)
    (child_data : Child) (e : Event) : option (App * Feedback) :=
  match e with
  | AddBirthday _ new_birthday =>
      match words child_data, birthday child_data with
      | _ :: _, None =>
          Some (add_birthday app selected_child child_data new_birthday)
      | _, _ => None
      end
  | AddWord _ new_word word_date speaks_box asl_box slider =>
      Some (add_word app selected_child child_data
                     new_word word_date speaks_box asl_box slider)
  | SaveChanges _ idx edit_word edit_date edit_speaks edit_asl edit_confidence =>
      if decide (idx < length (words child_data))%nat
      then Some (save_changes app selected_child child_data idx
                              edit_word edit_date edit_speaks edit_asl
                              edit_confidence)
      else None
  | DeleteWord _ idx =>
      if decide (idx < length (words child_data))%nat
      then Some (delete_word app selected_child child_data idx)
      else None
  | DeleteChild _ => Some (delete_child app selected_child)
  | _ => None
  end.

(** The child an event is about, if any. *)
Definition selected (e : Event) : option string :=
  match e with
  | AddBirthday c _ | AddWord c _ _ _ _ _ | SaveChanges c _ _ _ _ _ _
  | DeleteWord c _ | DeleteChild c => Some c
  | _ => None
  end.

Definition main (app : App) (e : Event) : option (App * Feedback) :=
  match user (data app), e with
  | None, Register user_name => Some (register app user_name)
  | None, _ => None
  | Some _, Register _ => None
  | Some _, Logout => Some (logout app)
  | Some _, AddChild child_name child_birthday =>
      Some (add_child app child_name child_birthday)
  | Some _, _ =>
      selected_child ← selected e;
      if decide (selected_child = "") then None
      else child_data ← children (data app) !! selected_child;
           child_form app selected_child child_data e
  end.

(** [run app events app']: the script ran once for each event in turn,
    starting with [app] and ending with [app']. *)
Inductive run : App → list Event → App → Prop :=
  | run_nil app : run app [] app
  | run_cons app e app' feedback events app'' :
      main app e = Some (app', feedback) →
      run app' events app'' →
      run app (e :: events) app''.

End Main.

(** What the slider of the forms can give: 0 to 100 in steps of 5. *)
Definition slider_value (c : Z) : Prop := 0 ≤ c ≤ 100 ∧ (5 | c).

Definition from_slider (e : Event) : Prop :=
  match e with
  | AddWord _ _ _ _ _ slider => slider_value slider
  | SaveChanges _ _ _ _ _ _ edit_confidence => slider_value edit_confidence
  | _ => True
  end.

(** ** A runtime to compute with

    ASCII lower-casing and strict [YYYY-MM-DD] dates: what [str.lower] and
    [strptime] compute on the inputs of the examples below. *)

Definition ascii_lower (c : ascii) : ascii :=
  let n := N_of_ascii c in
  if ((65 <=? n) && (n <=? 90))%N then ascii_of_N (n + 32) else c.

Fixpoint string_lower (s : string) : string :=
  match s with
  | EmptyString => EmptyString
  | String c s' => String (ascii_lower c) (string_lower s')
  end.

Definition digit (c : ascii) : option Z :=
  let n := Z.of_N (N_of_ascii c) in
  if (48 <=? n) && (n <=? 57) then Some (n - 48) else None.

Definition digits (cs : list ascii) : option Z :=
  foldl (λ acc c, n ← acc; d ← digit c; Some (10 * n + d)) (Some 0) cs.

Definition iso_date (s : string) : option datetime :=
  match String.list_ascii_of_string s with
  | [y1; y2; y3; y4; s1; m1; m2; s2; d1; d2] =>
      if decide (s1 = "-"%char ∧ s2 = "-"%char) then
        y ← digits [y1; y2; y3; y4];
        m ← digits [m1; m2];
        d ← digits [d1; d2];
        if decide (1 ≤ m ≤ 12 ∧ 1 ≤ d ≤ 31)
        then Some {| year := y; month := m; day := d |}
        else None
      else None
  | _ => None
  end.

Definition example_runtime : PyRuntime :=
  {| lower := string_lower; strptime := iso_date |}.

(** Data for the examples: a table whose last three rows have an empty
    strategy cell, the same table without the strategy column, and a few
    children born on 2024-01-15. *)

Definition entry (w d : string) (c : option Z) : WordEntry :=
  {| word := w; date_added := d; speaks := true; asl := false; confidence := c |}.

Definition typical_table : list Row :=
  [ {| Word := "mama"; Typical_Age := 8;
       Learning_Strategy := Some (Text "Point to yourself and say mama.") |};
    {| Word := "dada"; Typical_Age := 8;
       Learning_Strategy := Some (Text "Point to dad and say dada.") |};
    {| Word := "ball"; Typical_Age := 12;
       Learning_Strategy := Some (Text "Roll a ball and name it.") |};
    {| Word := "up"; Typical_Age := 9; Learning_Strategy := Some NaN |};
    {| Word := "dog"; Typical_Age := 10; Learning_Strategy := Some NaN |};
    {| Word := "milk"; Typical_Age := 12; Learning_Strategy := Some NaN |} ].

Definition typical_table_plain : list Row :=
  map (λ row, {| Word := Word row; Typical_Age := Typical_Age row;
                 Learning_Strategy := None |})
      typical_table.

(** Knows one word of the table well. *)
Definition child_mama : Child :=
  {| words := [entry "mama" "2024-09-02" (Some 80)];
     birthday := Some "2024-01-15" |}.

(** No word yet. *)
Definition child_new : Child :=
  {| words := []; birthday := Some "2024-01-15" |}.

(** One shaky word, spelled with a capital. *)
Definition child_up : Child :=
  {| words := [entry "Up" "2024-10-20" (Some 30)];
     birthday := Some "2024-01-15" |}.

(** Confidences that no slider produces, and one entry without any. *)
Definition child_odd : Child :=
  {| words := [entry "uh-oh" "2024-11-03" (Some (-5));
               entry "bye" "2024-11-09" (Some 150);
               entry "moo" "2024-11-21" None];
     birthday := Some "2024-01-15" |}.

(** Three dated words, one of them from before the birthday, two in the
    same month. *)
Definition child_dated : Child :=
  {| words := [entry "up" "2024-03-10" (Some 30);
               entry "hi" "2023-12-31" (Some 90);
               entry "ball" "2024-03-28" (Some 80)];
     birthday := Some "2024-01-15" |}.

(** Stripping ASCII white space, for [str.strip], and running [main] over
    a list of events. *)

Definition ascii_space (c : ascii) : bool :=
  let n := N_of_ascii c in
  (((9 <=? n) && (n <=? 13)) || (n =? 32))%N.

Fixpoint lstrip (s : string) : string :=
  match s with
  | EmptyString => EmptyString
  | String c s' => if ascii_space c then lstrip s' else s
  end.

Definition ascii_strip (s : string) : string :=
  String.rev (lstrip (String.rev (lstrip s))).

Definition example_text : PyText := {| strip := ascii_strip |}.

Fixpoint run_events `{PyText} (app : App) (events : list Event) : option App :=
  match events with
  | [] => Some app
  | e :: events' =>
      match main app e with
      | Some (app', _) => run_events app' events'
      | None => None
      end
  end.

(** A first session: Sam registers, adds Ann and three of her words, the
    first typed with blanks around it. *)
Definition first_session : list Event :=
  [ Register "Sam";
    AddChild "Ann" "2024-01-15";
    AddWord "Ann" " up " "2024-03-10" true false 30;
    AddWord "Ann" "hi" "2024-04-02" true true 90;
    AddWord "Ann" "ball" "2024-04-20" true false 80 ].

Definition child_ann : Child :=
  {| words := [ {| word := "up"; date_added := "2024-03-10"; speaks := true;
                   asl := false; confidence := Some 30 |};
                {| word := "hi"; date_added := "2024-04-02"; speaks := true;
                   asl := true; confidence := Some 90 |};
                {| word := "ball"; date_added := "2024-04-20"; speaks := true;
                   asl := false; confidence := Some 80 |} ];
     birthday := Some "2024-01-15" |}.

Definition store_ann : Data :=
  {| user := Some "Sam"; children := {[ "Ann" := child_ann ]} |}.

Definition app_ann : App := save_data store_ann.

(** Six shaky words. *)
Definition child_shaky : Child :=
  {| words := [entry "milk" "2024-09-01" (Some 10);
               entry "Dog" "2024-09-02" (Some 20);
               entry "zzz" "2024-09-03" (Some 5);
               entry "mama" "2024-09-04" (Some 45);
               entry "up" "2024-09-05" None;
               entry "dada" "2024-09-06" (Some 0)];
     birthday := Some "2024-01-15" |}.

(** The words of [child_dated], added in another order. *)
Definition child_dated_shuffled : Child :=
  {| words := [entry "ball" "2024-03-28" (Some 80);
               entry "up" "2024-03-10" (Some 30);
               entry "hi" "2023-12-31" (Some 90)];
     birthday := Some "2024-01-15" |}.

(** ** Vocabulary of the statements *)

Definition sum (l : list Z) : Z := foldr Z.add 0 l.

(** Running totals of [l] starting from [t]. *)
Fixpoint running_totals (t : Z) (l : list Z) : list Z :=
  match l with
  | [] => []
  | c :: l' => (t + c) :: running_totals (t + c) l'
  end.

(** [l] ascends along [key]. *)
Definition ascending {A} (key : A → Z) (l : list A) : Prop :=
  StronglySorted (λ a b, key a ≤ key b) l.

(** The low-confidence records of a child, before and after the sort, and
    the rows of the table that the fill step may use. *)
Definition low_confidence `{PyRuntime} (df : list Row) (child_data : Child)
  : list PracticeWord :=
  low_confidence_words (typical_words_order df) (typical_words_strategies df)
                       (words child_data).

Definition sorted_low `{PyRuntime} (df : list Row) (child_data : Child)
  : list PracticeWord :=
  sort_by typical_age (low_confidence df child_data).

Definition fresh_rows `{PyRuntime} (df : list Row) (child_data : Child)
  : list Row :=
  filter (λ row, lower (Word row) ∉ child_words_lower child_data) df.

(** The record [get_practice_words] builds for an entry of the child. *)
Definition practice_record `{PyRuntime} (df : list Row) (w : WordEntry)
  : PracticeWord :=
  low_confidence_word (typical_words_order df) (typical_words_strategies df) w.

(** [w] is not a word of the table, whatever the casing. *)
Definition absent `{PyRuntime} (df : list Row) (w : string) : Prop :=
  Forall (λ row, lower (Word row) ≠ lower w) df.

(** The age bucket of an entry for a parsed birthday, when its date parses,
    and the words of the entries of one bucket, in the order of the list. *)
Definition entry_age `{PyRuntime} (birth : datetime) (w : WordEntry) : option Z :=
  target ← strptime (date_added w);
  Some ((year target - year birth) * 12 + (month target - month birth)).

Definition words_at `{PyRuntime} (birth : datetime) (k : Z) (ws : list WordEntry)
  : list string :=
  map word (filter (λ w, entry_age birth w = Some k) ws).

(** [d1] is a day before [d2]. *)
Definition predates (d1 d2 : datetime) : Prop :=
  year d1 < year d2
  ∨ (year d1 = year d2
     ∧ (month d1 < month d2 ∨ (month d1 = month d2 ∧ day d1 < day d2))).

(** The two series of a chart; both are empty when there is no chart. *)
Definition cumulative_totals (r : option Figure) : list Z :=
  from_option y [] r.

Definition new_word_counts (r : option Figure) : list Z :=
  from_option (λ fig, (customdata fig).*1) [] r.

(** The record of an entry when the table has no row. *)
Definition unlisted_record (w : WordEntry) : PracticeWord :=
  {| pw_word := word w; pw_confidence := get_confidence w; typical_age := 999;
     in_vocab := true; strategy := Text default_strategy |}.

(** What a chart plots, without its title: the labels, the cumulative
    totals and the counts of new words; [None] and an exception pass
    through. *)
Definition chart_series (r : result (option Figure))
  : result (option (list string * list Z * list Z)) :=
  match r with
  | Ok (Some fig) => Ok (Some (x fig, y fig, (customdata fig).*1))
  | Ok None => Ok None
  | Raise e => Raise e
  end.

(** The child a run of the script may change: the selected one, or the one
    the sidebar form names. *)
Definition target (e : Event) : option string :=
  match e with
  | AddChild child_name _ => Some child_name
  | _ => selected e
  end.

(** The list of a child as the page shows it: newest first. *)
Definition shown_words (child_data : Child) : list WordEntry :=
  reverse (words child_data).

(** The entry a form makes of its values. *)
Definition form_entry `{PyText} (text date : string) (speaks_box asl_box : bool)
    (c : Z) : WordEntry :=
  {| word := strip text; date_added := date; speaks := speaks_box;
     asl := asl_box; confidence := Some c |}.

(** Every child has a name and a birthday, and every entry a confidence
    that the slider can give. *)
Definition well_formed (d : Data) : Prop :=
  map_Forall (λ name child_data,
                name ≠ ""
                ∧ is_Some (birthday child_data)
                ∧ Forall (λ w, ∃ c, confidence w = Some c ∧ slider_value c)
                         (words child_data))
             (children d).

(** [each tac] proves a [Forall] over a literal list, element by element. *)
Ltac each tac := repeat (constructor; [tac|]); try constructor.

(** * Properties *)

(** ** The sort *)

Section Sorting.
Context {A : Type} (key : A → Z).

Lemma insert_by_Permutation (a : A) l : insert_by key a l ≡ₚ a :: l.
Proof.
  induction l as [|b l IH]; simpl; [done|].
  destruct (key a <=? key b); [done|].
  rewrite IH. apply Permutation_swap.
Qed.

Lemma sort_by_Permutation l : sort_by key l ≡ₚ l.
Proof.
  induction l as [|a l IH]; simpl; [done|].
  by rewrite insert_by_Permutation, IH.
Qed.

Lemma sort_by_length l : length (sort_by key l) = length l.
Proof. by rewrite sort_by_Permutation. Qed.

Lemma insert_by_ascending (a : A) l :
  ascending key l → ascending key (insert_by key a l).
Proof.
  unfold ascending. induction 1 as [|b l Hl IH Hb]; simpl.
  - repeat constructor.
  - destruct (Z.leb_spec (key a) (key b)) as [Hab|Hab].
    + constructor; [by constructor|].
      constructor; [done|].
      eapply Forall_impl; [exact Hb|]. simpl. intros; lia.
    + constructor; [done|].
      rewrite insert_by_Permutation. constructor; [lia|done].
Qed.

Lemma sort_by_ascending l : ascending key (sort_by key l).
Proof.
  induction l; simpl; [constructor|]. by apply insert_by_ascending.
Qed.

Lemma insert_by_with_key k (a : A) l :
  with_key key k (insert_by key a l) = with_key key k (a :: l).
Proof.
  unfold with_key. induction l as [|b l IH]; simpl; [done|].
  destruct (Z.leb_spec (key a) (key b)) as [Hab|Hab]; [done|].
  rewrite !filter_cons in *.
  repeat case_decide; simplify_eq; try lia; by rewrite IH.
Qed.

Lemma sort_by_with_key k l :
  with_key key k (sort_by key l) = with_key key k l.
Proof.
  induction l as [|a l IH]; simpl; [done|].
  rewrite insert_by_with_key. unfold with_key in *.
  by rewrite !filter_cons, IH.
Qed.

Lemma ascending_take n l : ascending key l → ascending key (take n l).
Proof.
  unfold ascending. intros Hl. revert n.
  induction Hl as [|a l Hl IH Ha]; intros [|n]; simpl; try constructor.
  - apply IH.
  - by apply Forall_take.
Qed.

Lemma with_key_take_prefix k n l :
  with_key key k (take n l) `prefix_of` with_key key k l.
Proof.
  unfold with_key. rewrite <-(take_drop n l) at 2.
  rewrite filter_app. by apply prefix_app_r.
Qed.

End Sorting.

Lemma filter_none {A} (P : A → Prop) `{∀ a, Decision (P a)} (l : list A) :
  Forall (λ a, ¬ P a) l → filter P l = [].
Proof.
  induction 1 as [|a l Ha _ IH]; [done|].
  by rewrite filter_cons_False.
Qed.

Lemma filter_all {A} (P : A → Prop) `{∀ a, Decision (P a)} (l : list A) :
  Forall P l → filter P l = l.
Proof.
  induction 1 as [|a l Ha _ IH]; [done|].
  by rewrite filter_cons_True, IH.
Qed.

(** ** The recommender *)

Section Recommender.
Context `{PyRuntime}.

Lemma low_confidence_words_filter order strategies ws :
  low_confidence_words order strategies ws
  = map (low_confidence_word order strategies)
        (filter (λ w, get_confidence w < 50) ws).
Proof.
  induction ws as [|w ws IH]; simpl; [done|].
  rewrite filter_cons.
  destruct (Z.ltb_spec (get_confidence w) 50); case_decide; try lia;
    simpl; by rewrite IH.
Qed.

Lemma low_confidence_eq df child :
  low_confidence df child
  = map (practice_record df) (filter (λ w, get_confidence w < 50) (words child)).
Proof. apply low_confidence_words_filter. Qed.

Lemma add_typical_words_spec known rows practice_words :
  add_typical_words known rows practice_words
  = practice_words
    ++ take (5 - length practice_words)%nat
            (map typical_word (filter (λ row, lower (Word row) ∉ known) rows)).
Proof.
  revert practice_words.
  induction rows as [|row rows IH]; intros pw; simpl.
  - by rewrite take_nil, app_nil_r.
  - destruct (Z.leb_spec 5 (Z.of_nat (length pw))) as [Hge|Hlt].
    + replace (5 - length pw)%nat with 0%nat by lia.
      by rewrite take_0, app_nil_r.
    + rewrite filter_cons. destruct (decide (lower (Word row) ∈ known)).
      * rewrite decide_False by tauto. apply IH.
      * rewrite decide_True by done. rewrite IH, length_app. simpl.
        rewrite <-app_assoc. f_equal.
        replace (5 - length pw)%nat with (S (5 - (length pw + 1)))%nat by lia.
        done.
Qed.

(** [get_practice_words] in closed form: the first five sorted
    low-confidence records, then as many fresh rows as still fit. *)
Lemma get_practice_words_eq df child :
  get_practice_words df child
  = take 5 (sorted_low df child)
    ++ take (5 - length (take 5 (sorted_low df child)))%nat
            (map typical_word (fresh_rows df child)).
Proof.
  unfold get_practice_words.
  change (sort_by typical_age _) with (sorted_low df child).
  set (shown := take 5 (sorted_low df child)).
  assert (length shown ≤ 5)%nat as Hle by (unfold shown; rewrite length_take; lia).
  destruct (Z.ltb_spec (Z.of_nat (length shown)) 5) as [Hlt|Hge].
  - rewrite add_typical_words_spec. apply take_ge.
    rewrite length_app, length_take. unfold fresh_rows. lia.
  - replace (5 - length shown)%nat with 0%nat by lia.
    rewrite take_0, app_nil_r. apply take_ge. lia.
Qed.

Lemma low_confidence_in_vocab df child :
  Forall (λ r, in_vocab r = true) (low_confidence df child).
Proof.
  rewrite low_confidence_eq. apply Forall_forall.
  intros r [w [-> _]]%list_elem_of_fmap. done.
Qed.

Lemma sorted_low_in_vocab df child :
  Forall (λ r, in_vocab r = true) (sorted_low df child).
Proof.
  unfold sorted_low. rewrite sort_by_Permutation. apply low_confidence_in_vocab.
Qed.

Lemma typical_word_not_in_vocab rows :
  Forall (λ r, in_vocab r = false) (map typical_word rows).
Proof. apply Forall_forall. intros r [row [-> _]]%list_elem_of_fmap. done. Qed.

(** Reading the two dictionaries. *)
Lemma foldl_insert_absent {V} (f : Row → V) k rows (d : gmap string V) :
  Forall (λ row, lower (Word row) ≠ k) rows →
  foldl (λ d row, <[lower (Word row) := f row]> d) d rows !! k = d !! k.
Proof.
  intros Hrows. revert d.
  induction Hrows as [|row rows Hne _ IH]; intros d; simpl; [done|].
  rewrite IH. by apply lookup_insert_ne.
Qed.

Lemma foldl_insert_last {V} (f : Row → V) k pre row post (d : gmap string V) :
  lower (Word row) = k →
  Forall (λ row', lower (Word row') ≠ k) post →
  foldl (λ d row, <[lower (Word row) := f row]> d) d (pre ++ row :: post) !! k
  = Some (f row).
Proof.
  intros <- Hpost. rewrite foldl_app. simpl.
  rewrite foldl_insert_absent by done. apply lookup_insert_eq.
Qed.

Lemma typical_age_absent df w :
  absent df (word w) → typical_age (practice_record df w) = 999.
Proof.
  intros Hw. unfold practice_record, low_confidence_word, typical_words_order.
  simpl. by rewrite foldl_insert_absent, lookup_empty.
Qed.

Lemma typical_words_order_bound df k a :
  Forall (λ row, Typical_Age row ≤ 999) df →
  typical_words_order df !! k = Some a → a ≤ 999.
Proof.
  unfold typical_words_order. intros Hdf.
  assert (∀ k a, (∅ : gmap string Z) !! k = Some a → a ≤ 999) as Hd
    by (intros ??; by rewrite lookup_empty).
  revert k a. generalize dependent (∅ : gmap string Z).
  induction Hdf as [|row rows Hrow _ IH]; intros d Hd; simpl; [done|].
  apply IH. intros k a.
  destruct (decide (lower (Word row) = k)) as [->|Hne].
  - rewrite lookup_insert_eq. by intros [= <-].
  - rewrite lookup_insert_ne by done. apply Hd.
Qed.

Lemma typical_age_bound df w :
  Forall (λ row, Typical_Age row ≤ 999) df →
  typical_age (practice_record df w) ≤ 999.
Proof.
  intros Hdf. unfold practice_record, low_confidence_word. simpl.
  destruct (typical_words_order df !! lower (word w)) as [a|] eqn:Ha; simpl.
  - by eapply typical_words_order_bound.
  - done.
Qed.

Lemma sorted_low_records df child :
  Forall (λ r, ∃ w, w ∈ words child ∧ get_confidence w < 50
                    ∧ r = practice_record df w)
         (sorted_low df child).
Proof.
  unfold sorted_low. rewrite sort_by_Permutation, low_confidence_eq.
  apply Forall_forall.
  intros r [w [-> [Hlow Hw]%list_elem_of_filter]]%list_elem_of_fmap. eauto.
Qed.

(** C1: the list returned by [get_practice_words] splits into the records
    with [in_vocab = true] followed by those with [in_vocab = false]; the
    first part ascends along [typical_age], each of its records is built
    from a low-confidence entry of the child, a word absent from the table
    gets the age 999, which no record exceeds when no age of the table
    does, and the sort is stable: for every age, the records of that age
    appear in the order their entries have in the child's list. *)
Theorem recommend_prefix_sorted_stable df child :
  ∃ shown filled,
    get_practice_words df child = shown ++ filled
    ∧ Forall (λ r, in_vocab r = true) shown
    ∧ Forall (λ r, in_vocab r = false) filled
    ∧ ascending typical_age shown
    ∧ Forall (λ r, ∃ w, w ∈ words child ∧ get_confidence w < 50
                        ∧ r = practice_record df w) shown
    ∧ (∀ w, absent df (word w) → typical_age (practice_record df w) = 999)
    ∧ (Forall (λ row, Typical_Age row ≤ 999) df →
       Forall (λ r, typical_age r ≤ 999) shown)
    ∧ (∀ k, with_key typical_age k shown
            `prefix_of`
            with_key typical_age k
              (map (practice_record df)
                   (filter (λ w, get_confidence w < 50) (words child)))).
Proof.
  eexists _, _. split; [apply get_practice_words_eq|].
  split_and!.
  - apply Forall_take, sorted_low_in_vocab.
  - apply Forall_take, typical_word_not_in_vocab.
  - apply ascending_take, sort_by_ascending.
  - apply Forall_take, sorted_low_records.
  - apply typical_age_absent.
  - intros Hdf. eapply Forall_impl; [apply Forall_take, sorted_low_records|].
    simpl. intros r (w & _ & _ & ->). by apply typical_age_bound.
  - intros k. rewrite <-low_confidence_eq.
    rewrite <-(sort_by_with_key typical_age k (low_confidence df child)).
    apply with_key_take_prefix.
Qed.

(** C2: [get_practice_words] returns at most five records, and fewer than
    five only when it has used up both sources: the list is then every
    low-confidence record followed by every fresh row of the table. *)
Theorem recommend_at_most_five df child :
  (length (get_practice_words df child) ≤ 5)%nat
  ∧ ((length (get_practice_words df child) < 5)%nat →
     get_practice_words df child
     = sorted_low df child ++ map typical_word (fresh_rows df child)).
Proof.
  rewrite get_practice_words_eq.
  set (low := sorted_low df child).
  set (fill := map typical_word (fresh_rows df child)).
  rewrite length_app, !length_take. split; [lia|].
  intros Hlt. rewrite !take_ge; [done|lia|lia].
Qed.

(** C3 (amended): when no entry of the child has a confidence below 50 and
    the table has at least five rows whose word is not in the child's
    vocabulary, [get_practice_words] returns exactly five records, all with
    [in_vocab = false]: the first five such rows. *)
Theorem fallback_completeness df child :
  Forall (λ w, 50 ≤ get_confidence w) (words child) →
  (5 ≤ length (fresh_rows df child))%nat →
  length (get_practice_words df child) = 5%nat
  ∧ Forall (λ r, in_vocab r = false) (get_practice_words df child)
  ∧ get_practice_words df child = map typical_word (take 5 (fresh_rows df child)).
Proof.
  intros Hhigh Hfresh.
  assert (sorted_low df child = []) as Hlow.
  { unfold sorted_low. rewrite low_confidence_eq.
    rewrite filter_none; [done|].
    eapply Forall_impl; [exact Hhigh|]. simpl. intros; lia. }
  rewrite get_practice_words_eq, Hlow. simpl.
  rewrite <-fmap_take. split_and!.
  - rewrite length_fmap, length_take. lia.
  - apply typical_word_not_in_vocab.
  - done.
Qed.

Lemma selected_in_sorted_low df child w :
  w ∈ words child → get_confidence w < 50 →
  practice_record df w ∈ sorted_low df child.
Proof.
  intros Hw Hlow. unfold sorted_low.
  rewrite sort_by_Permutation, low_confidence_eq.
  apply list_elem_of_fmap. exists w. split; [done|].
  by apply list_elem_of_filter.
Qed.

Lemma sorted_low_in_result df child r :
  (length (sorted_low df child) ≤ 5)%nat →
  r ∈ sorted_low df child → r ∈ get_practice_words df child.
Proof.
  intros Hlen Hr. rewrite get_practice_words_eq, take_ge by done.
  apply elem_of_app. by left.
Qed.

Lemma fresh_row_unknown df child row :
  row ∈ fresh_rows df child →
  ∀ w, w ∈ words child → lower (Word row) ≠ lower (word w).
Proof.
  unfold fresh_rows, child_words_lower.
  intros [Hfresh _]%list_elem_of_filter w Hw Heq. apply Hfresh.
  apply elem_of_list_to_set, list_elem_of_fmap. eauto.
Qed.

(** The strategy of the record of an entry: the fallback text when the word
    is in no row of the table; otherwise what the last row holding the word
    has in the strategy column, and the empty text when the table has no
    such column. *)
Lemma strategy_of_record df w :
  (absent df (word w) →
   strategy (practice_record df w) = Text default_strategy)
  ∧ (∀ pre row post,
       df = pre ++ row :: post →
       lower (Word row) = lower (word w) →
       absent post (word w) →
       strategy (practice_record df w)
       = default (Text "") (Learning_Strategy row)).
Proof.
  unfold practice_record, low_confidence_word, typical_words_strategies.
  simpl. split.
  - intros Hw. by rewrite foldl_insert_absent, lookup_empty.
  - intros pre row post -> Hrow Hpost.
    by rewrite (foldl_insert_last _ _ pre row post).
Qed.

(** C8 (amended): a confidence outside 0..100 is neither rejected nor
    clamped.  Below 0 the entry is selected by the low-confidence pass and
    its record carries the stored value; above 100 the entry is not
    selected. *)
Theorem confidence_not_validated df child w c :
  w ∈ words child → confidence w = Some c → c < 0 ∨ 100 < c →
  pw_confidence (practice_record df w) = c
  ∧ (c < 0 → practice_record df w ∈ sorted_low df child
             ∧ ((length (sorted_low df child) ≤ 5)%nat →
                practice_record df w ∈ get_practice_words df child))
  ∧ (100 < c → w ∉ filter (λ w', get_confidence w' < 50) (words child))
  ∧ low_confidence df child
    = map (practice_record df)
          (filter (λ w', get_confidence w' < 50) (words child)).
Proof.
  intros Hw Hc _.
  assert (get_confidence w = c) as Hget by (unfold get_confidence; by rewrite Hc).
  split_and!.
  - done.
  - intros Hneg.
    assert (practice_record df w ∈ sorted_low df child) as Hin
      by (apply selected_in_sorted_low; [done|lia]).
    split; [done|]. intros Hlen. by apply sorted_low_in_result.
  - intros Hbig [Hlow _]%list_elem_of_filter. lia.
  - apply low_confidence_eq.
Qed.

(** C9: the low-confidence scan gives every low-confidence entry a record of
    its own, spelled as the entry is, so two casings of a word are two
    records; the fill step compares lower-cased words, so no record it adds
    has the lower-cased form of any word of the child, whatever the
    casing. *)
Theorem casing_scan_and_fill df child :
  sorted_low df child
    ≡ₚ map (practice_record df)
           (filter (λ w, get_confidence w < 50) (words child))
  ∧ (∀ w, pw_word (practice_record df w) = word w)
  ∧ take 5 (sorted_low df child) `prefix_of` get_practice_words df child
  ∧ Forall (λ r, in_vocab r = false →
                 ∀ w, w ∈ words child → lower (pw_word r) ≠ lower (word w))
           (get_practice_words df child).
Proof.
  split_and!.
  - unfold sorted_low. by rewrite sort_by_Permutation, low_confidence_eq.
  - done.
  - rewrite get_practice_words_eq. by apply prefix_app_r.
  - rewrite get_practice_words_eq. apply Forall_app. split.
    + eapply Forall_impl; [apply Forall_take, sorted_low_in_vocab|].
      simpl. intros r Hr. by rewrite Hr.
    + apply Forall_take, Forall_forall.
      intros r [row [-> Hrow]]%list_elem_of_fmap _. simpl.
      by apply (fresh_row_unknown df child).
Qed.

(** C10: an entry without a confidence counts as confidence 0: the
    low-confidence pass always selects it, and its record reports 0. *)
Theorem missing_confidence_is_zero df child w :
  w ∈ words child → confidence w = None →
  pw_confidence (practice_record df w) = 0
  ∧ practice_record df w ∈ low_confidence df child
  ∧ practice_record df w ∈ sorted_low df child
  ∧ ((length (sorted_low df child) ≤ 5)%nat →
     practice_record df w ∈ get_practice_words df child).
Proof.
  intros Hw Hc.
  assert (get_confidence w = 0) as Hget by (unfold get_confidence; by rewrite Hc).
  assert (practice_record df w ∈ sorted_low df child) as Hin
    by (apply selected_in_sorted_low; [done|lia]).
  split_and!; [done| |done|].
  - unfold sorted_low in Hin. by rewrite sort_by_Permutation in Hin.
  - intros Hlen. by apply sorted_low_in_result.
Qed.

End Recommender.

(** ** Sums and running totals *)

Lemma sum_app l1 l2 : sum (l1 ++ l2) = sum l1 + sum l2.
Proof. induction l1 as [|a l1 IH]; simpl; lia. Qed.

Lemma sum_Permutation l1 l2 : l1 ≡ₚ l2 → sum l1 = sum l2.
Proof. induction 1; simpl; lia. Qed.

Lemma sum_map_add {A} (f g : A → Z) l :
  sum (map (λ a, f a + g a) l) = sum (map f l) + sum (map g l).
Proof. induction l as [|a l IH]; simpl; lia. Qed.

Lemma sum_map_Permutation {A} (f : A → Z) l1 l2 :
  l1 ≡ₚ l2 → sum (map f l1) = sum (map f l2).
Proof. intros Hp. apply sum_Permutation. by rewrite Hp. Qed.

(** A key of a duplicate-free list is counted once. *)
Lemma sum_indicator (a : Z) K :
  NoDup K → a ∈ K → sum (map (λ k, if decide (a = k) then 1 else 0) K) = 1.
Proof.
  induction 1 as [|k K Hk Hnd IH]; [by intros ?%elem_of_nil|].
  intros Ha. simpl. destruct (decide (a = k)) as [->|Hne].
  - assert (sum (map (λ k', if decide (k = k') then 1 else 0) K) = 0) as ->; [|done].
    clear IH Hnd Ha. induction K as [|k' K IH]; simpl; [done|].
    apply not_elem_of_cons in Hk as [Hne Hk].
    rewrite decide_False by done. by rewrite IH.
  - apply elem_of_cons in Ha as [?|Ha]; [done|]. by rewrite IH.
Qed.

Lemma running_totals_length t l : length (running_totals t l) = length l.
Proof. revert t. induction l as [|c l IH]; intros t; simpl; by rewrite ?IH. Qed.

Lemma running_totals_lower_bound t l :
  Forall (λ c, 0 ≤ c) l → Forall (λ v, t ≤ v) (running_totals t l).
Proof.
  intros Hl. revert t.
  induction Hl as [|c l Hc _ IH]; intros t; simpl; constructor; [lia|].
  eapply Forall_impl; [apply IH|]. simpl. intros; lia.
Qed.

Lemma running_totals_sorted t l :
  Forall (λ c, 0 ≤ c) l → StronglySorted Z.le (running_totals t l).
Proof.
  intros Hl. revert t.
  induction Hl as [|c l Hc Hl IH]; intros t; simpl; constructor.
  - apply IH.
  - by apply running_totals_lower_bound.
Qed.

Lemma running_totals_last t c l :
  last (running_totals t (c :: l)) = Some (t + sum (c :: l)).
Proof.
  revert t c. induction l as [|c' l IH]; intros t c.
  - simpl. f_equal. lia.
  - change (running_totals t (c :: c' :: l))
      with ((t + c) :: running_totals (t + c) (c' :: l)).
    rewrite last_cons, IH. simpl. f_equal. lia.
Qed.

(** ** The growth chart *)

Section Aggregator.
Context `{PyRuntime}.

Lemma calculate_age_in_months_entry b bd w k :
  strptime b = Some bd → entry_age bd w = Some k →
  calculate_age_in_months b (date_added w) = Ok k.
Proof.
  unfold entry_age, calculate_age_in_months, parse_date.
  intros -> Hk. destruct (strptime (date_added w)) as [td|]; [|done].
  simpl in *. injection Hk as <-. f_equal. lia.
Qed.

Lemma entry_age_is_Some bd w :
  is_Some (strptime (date_added w)) → is_Some (entry_age bd w).
Proof. unfold entry_age. intros [td ->]. simpl. eauto. Qed.

(** The first loop: every word is appended to the list of its bucket. *)
Lemma group_words_by_age_spec b bd ws m0 :
  strptime b = Some bd →
  Forall (λ w, is_Some (strptime (date_added w))) ws →
  ∃ m, group_words_by_age b ws m0 = Ok m
       ∧ (∀ k, default [] (m !! k) = default [] (m0 !! k) ++ words_at bd k ws)
       ∧ (∀ k, is_Some (m !! k)
               ↔ is_Some (m0 !! k) ∨ ∃ w, w ∈ ws ∧ entry_age bd w = Some k).
Proof.
  intros Hb Hws. revert m0.
  induction Hws as [|w ws Hw _ IH]; intros m0; simpl.
  - exists m0. split_and!; [done| |].
    + intros k. unfold words_at. simpl. by rewrite app_nil_r.
    + intros k. split; [by left|].
      intros [?|(w & []%elem_of_nil & _)]; done.
  - destruct (entry_age_is_Some bd w Hw) as [a Ha].
    rewrite (calculate_age_in_months_entry b bd w a) by done. simpl.
    destruct (IH (<[a := default [] (m0 !! a) ++ [word w]]> m0))
      as (m & -> & Hcontent & Hdom).
    exists m. split_and!; [done| |].
    + intros k. rewrite Hcontent. unfold words_at. rewrite filter_cons.
      destruct (decide (a = k)) as [->|Hne].
      * rewrite lookup_insert_eq, decide_True by done. simpl.
        by rewrite <-app_assoc.
      * rewrite lookup_insert_ne by done.
        rewrite decide_False by congruence. done.
    + intros k. rewrite Hdom. destruct (decide (a = k)) as [->|Hne].
      * rewrite lookup_insert_eq. split; [|eauto].
        intros _. right. exists w. split; [left|done].
      * rewrite lookup_insert_ne by done. split.
        -- intros [?|(w' & Hw' & Hk)]; [by left|].
           right. exists w'. split; [by right|done].
        -- intros [?|(w' & [->|Hw']%elem_of_cons & Hk)]; [by left|congruence|].
           right. eauto.
Qed.

(** The second loop, in closed form. *)
Lemma accumulate_spec m ages t s :
  accumulate m ages t s
  = {| cumulative_count :=
         cumulative_count s
         ++ running_totals t
              (map (λ age, Z.of_nat (length (default [] (m !! age)))) ages);
       age_labels := age_labels s ++ map age_label ages;
       words_per_period :=
         words_per_period s
         ++ map (λ age, Z.of_nat (length (default [] (m !! age)))) ages;
       word_lists :=
         word_lists s
         ++ map (λ age, String.concat "<br>" (default [] (m !! age))) ages |}.
Proof.
  revert t s. induction ages as [|age ages IH]; intros t s; simpl.
  - destruct s. simpl. by rewrite !app_nil_r.
  - rewrite IH. simpl. by rewrite <-!app_assoc.
Qed.

(** The keys in ascending order. *)
Lemma sorted_Permutation l : sorted l ≡ₚ l.
Proof. apply sort_by_Permutation. Qed.

Lemma sorted_keys_NoDup (m : gmap Z (list string)) :
  NoDup (sorted (elements (dom m))).
Proof. rewrite sorted_Permutation. apply NoDup_elements. Qed.

Lemma elem_of_sorted_keys (m : gmap Z (list string)) k :
  k ∈ sorted (elements (dom m)) ↔ is_Some (m !! k).
Proof. by rewrite sorted_Permutation, elem_of_elements, elem_of_dom. Qed.

(** Every entry is counted in exactly one bucket. *)
Lemma bucket_sizes_sum bd ws K :
  NoDup K →
  Forall (λ w, ∃ k, k ∈ K ∧ entry_age bd w = Some k) ws →
  sum (map (λ k, Z.of_nat (length (words_at bd k ws))) K)
  = Z.of_nat (length ws).
Proof.
  intros HK Hws. induction Hws as [|w ws (a & Ha & Hwa) _ IH].
  - unfold words_at. simpl. clear HK. induction K; simpl; lia.
  - change (length (w :: ws)) with (S (length ws)).
    rewrite Nat2Z.inj_succ, <-IH.
    trans (sum (map (λ k, (if decide (a = k) then 1 else 0)
                          + Z.of_nat (length (words_at bd k ws))) K)).
    + f_equal. apply map_ext. intros k. unfold words_at.
      rewrite filter_cons. destruct (decide (a = k)) as [->|Hne].
      * rewrite decide_True by done. simpl. lia.
      * rewrite decide_False by congruence. lia.
    + rewrite sum_map_add, sum_indicator by done. lia.
Qed.

(** The chart of a child with words, a birthday and dates that parse: one
    bar per bucket that holds a word, buckets ascending. *)
Lemma create_vocabulary_chart_spec child name b bd :
  words child ≠ [] → birthday child = Some b → strptime b = Some bd →
  Forall (λ w, is_Some (strptime (date_added w))) (words child) →
  ∃ ages,
    NoDup ages
    ∧ ascending id ages
    ∧ (∀ k, k ∈ ages ↔ ∃ w, w ∈ words child ∧ entry_age bd w = Some k)
    ∧ create_vocabulary_chart child name
      = Ok (Some
          {| x := map age_label ages;
             y := running_totals 0
                    (map (λ k, Z.of_nat (length (words_at bd k (words child))))
                         ages);
             customdata :=
               zip (map (λ k, Z.of_nat (length (words_at bd k (words child))))
                        ages)
                   (map (λ k, String.concat "<br>" (words_at bd k (words child)))
                        ages);
             title := name +:+ "'s Vocabulary Growth" |}).
Proof.
  intros Hne Hb Hbd Hws. unfold create_vocabulary_chart. rewrite Hb.
  destruct (words child) as [|w ws] eqn:Hwords; [done|].
  destruct (group_words_by_age_spec b bd (w :: ws) ∅ Hbd Hws)
    as (m & -> & Hcontent & Hdom).
  assert (∀ k, default [] (m !! k) = words_at bd k (w :: ws)) as Hm.
  { intros k. by rewrite Hcontent, lookup_empty. }
  exists (sorted (elements (dom m))). split_and!.
  - apply sorted_keys_NoDup.
  - apply sort_by_ascending.
  - intros k. rewrite elem_of_sorted_keys, Hdom, lookup_empty.
    split; [intros [[? ?]|?]; done|by right].
  - simpl. rewrite accumulate_spec. simpl. do 3 f_equal.
    + f_equal. apply map_ext. intros k. by rewrite Hm.
    + f_equal; apply map_ext; intros k; by rewrite Hm.
Qed.

(** C4: for a child with a birthday whose dates all parse, the chart is
    computed without error; its cumulative totals never decrease, the
    per-bucket counts of new words add up to the number of entries, and,
    when there is an entry, a chart is produced and its last cumulative
    total is the number of entries. *)
Theorem cumulative_series child name b bd :
  birthday child = Some b → strptime b = Some bd →
  Forall (λ w, is_Some (strptime (date_added w))) (words child) →
  ∃ r, create_vocabulary_chart child name = Ok r
       ∧ StronglySorted Z.le (cumulative_totals r)
       ∧ sum (new_word_counts r) = Z.of_nat (length (words child))
       ∧ (words child ≠ [] →
          is_Some r
          ∧ last (cumulative_totals r) = Some (Z.of_nat (length (words child)))).
Proof.
  intros Hb Hbd Hws.
  destruct (decide (words child = [])) as [Hnil|Hne].
  { exists None. unfold create_vocabulary_chart. rewrite Hnil. simpl.
    split_and!; [done|constructor|done|done]. }
  destruct (create_vocabulary_chart_spec child name b bd Hne Hb Hbd Hws)
    as (ages & Hnd & _ & Hages & ->).
  assert (sum (map (λ k, Z.of_nat (length (words_at bd k (words child)))) ages)
          = Z.of_nat (length (words child))) as Hsum.
  { apply bucket_sizes_sum; [done|]. apply Forall_forall. intros w Hw.
    destruct (entry_age_is_Some bd w) as [k Hk].
    { by eapply Forall_forall in Hws. }
    exists k. split; [|done]. apply Hages. eauto. }
  eexists. split; [done|]. simpl. split_and!.
  - apply running_totals_sorted, Forall_forall.
    intros c [k [-> _]]%list_elem_of_fmap. lia.
  - rewrite fst_zip; [done|]. by rewrite !length_map.
  - intros _. split; [eauto|].
    destruct ages as [|k ages].
    + simpl in Hsum. destruct (words child); [done|simpl in Hsum; lia].
    + rewrite <-Hsum. simpl map. by rewrite running_totals_last.
Qed.

(** C5 (amended): the bucket of an entry is the difference of the years
    times 12 plus the difference of the months; the day of the month plays
    no part; it is negative exactly when the year and month of the entry
    come before those of the birthday, so that an entry dated earlier in the
    month of the birthday has bucket 0; and the chart has a bar labelled
    with that very number, negative or not, which lists the entry's word. *)
Theorem age_bucket child name b bd w td :
  birthday child = Some b → strptime b = Some bd →
  Forall (λ w, is_Some (strptime (date_added w))) (words child) →
  w ∈ words child → strptime (date_added w) = Some td →
  let k := (year td - year bd) * 12 + (month td - month bd) in
  calculate_age_in_months b (date_added w) = Ok k
  ∧ (∀ d' td', strptime d' = Some td' →
               year td' = year td → month td' = month td →
               calculate_age_in_months b d' = Ok k)
  ∧ (1 ≤ month bd ≤ 12 → 1 ≤ month td ≤ 12 →
     k < 0 ↔ year td < year bd ∨ (year td = year bd ∧ month td < month bd))
  ∧ ∃ fig i,
      create_vocabulary_chart child name = Ok (Some fig)
      ∧ x fig !! i = Some (age_label k)
      ∧ customdata fig !! i
        = Some (Z.of_nat (length (words_at bd k (words child))),
                String.concat "<br>" (words_at bd k (words child)))
      ∧ word w ∈ words_at bd k (words child).
Proof.
  intros Hb Hbd Hws Hw Htd k.
  assert (entry_age bd w = Some k) as Hk by (unfold entry_age; by rewrite Htd).
  split_and!.
  - by apply (calculate_age_in_months_entry b bd).
  - intros d' td' Hd' Hy Hm.
    unfold calculate_age_in_months, parse_date. rewrite Hbd, Hd'. simpl.
    f_equal. unfold k. rewrite Hy, Hm. lia.
  - intros Hmb Hmt. unfold k. lia.
  - assert (words child ≠ []) as Hne by (intros Hnil; rewrite Hnil in Hw; inversion Hw).
    destruct (create_vocabulary_chart_spec child name b bd Hne Hb Hbd Hws)
      as (ages & _ & _ & Hages & ->).
    assert (k ∈ ages) as [i Hi]%list_elem_of_lookup by (apply Hages; eauto).
    eexists _, i. split; [done|]. simpl. split_and!.
    + by rewrite list_lookup_fmap, Hi.
    + by rewrite lookup_zip_with, !list_lookup_fmap, Hi.
    + unfold words_at. apply list_elem_of_fmap. exists w. split; [done|].
      by apply list_elem_of_filter.
Qed.

(** C6 (amended): for a child without words neither function raises:
    [get_practice_words] returns the first five rows of the table as new
    words, which is the empty list exactly when the table is empty, and
    [create_vocabulary_chart] returns no chart. *)
Theorem empty_vocabulary df child name :
  words child = [] →
  get_practice_words df child = map typical_word (take 5 df)
  ∧ (get_practice_words df child = [] ↔ df = [])
  ∧ create_vocabulary_chart child name = Ok None.
Proof.
  intros Hnil.
  assert (get_practice_words df child = map typical_word (take 5 df)) as Heq.
  { rewrite get_practice_words_eq.
    unfold sorted_low, low_confidence, fresh_rows, child_words_lower.
    rewrite Hnil. simpl. rewrite filter_all, fmap_take; [done|].
    apply Forall_forall. intros row _. apply not_elem_of_empty. }
  split_and!; [done| |].
  - rewrite Heq. destruct df; simpl; split; done.
  - unfold create_vocabulary_chart. by rewrite Hnil.
Qed.

End Aggregator.

(** ** More on the recommender *)

Section RecommenderMore.
Context `{PyRuntime}.

(** A stable sort leaves an ascending list as it is. *)
Lemma sort_by_ascending_id {A} (key : A → Z) l :
  ascending key l → sort_by key l = l.
Proof.
  unfold ascending. induction 1 as [|a l Hl IH Ha]; simpl; [done|].
  rewrite IH. destruct Ha as [|b l Hab _]; simpl; [done|].
  by rewrite (proj2 (Z.leb_le _ _) Hab).
Qed.

Lemma ascending_constant {A} (key : A → Z) c l :
  Forall (λ a, key a = c) l → ascending key l.
Proof.
  unfold ascending. induction 1 as [|a l Ha Hl IH]; constructor; [done|].
  eapply Forall_impl; [exact Hl|]. simpl. intros; lia.
Qed.

(** Without the table file the recommendations are the child's first five
    low-confidence entries, in the child's own order, each with the age 999
    and the fallback strategy; nothing else is added. *)
Theorem recommend_without_table child :
  get_practice_words (load_typical_words None) child
  = take 5 (map unlisted_record
                (filter (λ w, get_confidence w < 50) (words child))).
Proof.
  rewrite get_practice_words_eq.
  change (load_typical_words None) with (@nil Row).
  change (map typical_word (fresh_rows [] child)) with (@nil PracticeWord).
  rewrite take_nil, app_nil_r.
  unfold sorted_low. rewrite low_confidence_eq.
  assert (∀ w, practice_record [] w = unlisted_record w) as Hrec by done.
  rewrite (map_ext _ _ Hrec).
  rewrite sort_by_ascending_id; [done|].
  apply (ascending_constant _ 999), Forall_forall.
  by intros r [w [-> _]]%list_elem_of_fmap.
Qed.

(** With five or more low-confidence entries all five recommendations are
    words of the child: no row of the table is used to fill. *)
Theorem five_low_confidence_entries df child :
  (5 ≤ length (filter (λ w, (get_confidence w < 50)%Z) (words child)))%nat →
  get_practice_words df child = take 5 (sorted_low df child)
  ∧ length (get_practice_words df child) = 5%nat
  ∧ Forall (λ r, in_vocab r = true) (get_practice_words df child).
Proof.
  intros Hfive.
  assert (5 ≤ length (sorted_low df child))%nat as Hlen.
  { unfold sorted_low. by rewrite sort_by_length, low_confidence_eq, length_map. }
  assert (get_practice_words df child = take 5 (sorted_low df child)) as Heq.
  { rewrite get_practice_words_eq, length_take_le by done.
    by rewrite take_0, app_nil_r. }
  rewrite Heq. split_and!; [done| |].
  - by rewrite length_take_le.
  - apply Forall_take, sorted_low_in_vocab.
Qed.

(** The number of recommendations is five, or everything there is to
    recommend when that is less: the low-confidence entries plus the rows of
    the table whose word the child does not have. *)
Theorem recommend_length df child :
  length (get_practice_words df child)
  = (5 `min` (length (filter (λ w, (get_confidence w < 50)%Z) (words child))
              + length (fresh_rows df child)))%nat.
Proof.
  rewrite get_practice_words_eq, length_app, !length_take, length_map.
  unfold sorted_low. rewrite sort_by_length, low_confidence_eq, length_map.
  lia.
Qed.

(** The rows used to fill come in the order of the table, none skipped:
    after the child's own words the list continues with the first rows,
    in table order, whose word the child does not have; they are not sorted
    by age. *)
Theorem fill_in_table_order df child :
  get_practice_words df child
  = take 5 (sorted_low df child)
    ++ map typical_word
         (take (5 - length (take 5 (sorted_low df child)))
               (fresh_rows df child))
  ∧ fresh_rows df child `sublist_of` df.
Proof.
  split.
  - by rewrite get_practice_words_eq, fmap_take.
  - unfold fresh_rows. apply sublist_filter.
Qed.

(** The typical age of an entry whose word is in the table is the age of
    the last row holding that word, compared without regard to case. *)
Theorem typical_age_listed pre row post w :
  lower (Word row) = lower (word w) →
  absent post (word w) →
  typical_age (practice_record (pre ++ row :: post) w) = Typical_Age row.
Proof.
  intros Hrow Hpost.
  unfold practice_record, low_confidence_word, typical_words_order. simpl.
  by rewrite (foldl_insert_last _ _ pre row post).
Qed.

(** A word the child knows well is never recommended: when every entry of
    the child spelling a word, in whatever casing, has a confidence of 50
    or more, no recommendation is for that word, in whatever casing. *)
Theorem well_known_word_not_recommended df child w0 :
  w0 ∈ words child →
  (∀ w, w ∈ words child → lower (word w) = lower (word w0) →
        50 ≤ get_confidence w) →
  Forall (λ r, lower (pw_word r) ≠ lower (word w0))
         (get_practice_words df child).
Proof.
  intros Hw0 Hknown. rewrite get_practice_words_eq. apply Forall_app. split.
  - eapply Forall_impl; [apply Forall_take, sorted_low_records|].
    simpl. intros r (w & Hw & Hlow & ->) Heq.
    specialize (Hknown w Hw Heq). lia.
  - apply Forall_take, Forall_forall.
    intros r [row [-> Hrow]]%list_elem_of_fmap. simpl.
    by apply (fresh_row_unknown df child).
Qed.

End RecommenderMore.

(** ** More on the growth chart *)

Section AggregatorMore.
Context `{PyRuntime}.

Lemma group_words_by_age_no_birth b ws m0 :
  ws ≠ [] → strptime b = None →
  group_words_by_age b ws m0 = Raise ValueError.
Proof.
  intros Hne Hb. destruct ws as [|w ws]; [done|]. simpl.
  unfold calculate_age_in_months, parse_date. by rewrite Hb.
Qed.

Lemma group_words_by_age_bad_date b bd ws m0 :
  strptime b = Some bd →
  Exists (λ w, strptime (date_added w) = None) ws →
  group_words_by_age b ws m0 = Raise ValueError.
Proof.
  intros Hb Hbad. revert m0.
  induction ws as [|w ws IH]; intros m0; [by apply Exists_nil in Hbad|].
  simpl. unfold calculate_age_in_months, parse_date. rewrite Hb. simpl.
  destruct (strptime (date_added w)) as [td|] eqn:Htd; [|done]. simpl.
  apply IH. apply Exists_cons in Hbad as [Hw|Hws]; [congruence|done].
Qed.

Lemma dates_parse_or_not ws :
  Forall (λ w, is_Some (strptime (date_added w))) ws
  ∨ Exists (λ w, strptime (date_added w) = None) ws.
Proof.
  induction ws as [|w ws [IH|IH]].
  - left. constructor.
  - destruct (strptime (date_added w)) as [td|] eqn:Htd.
    + left. constructor; [by rewrite Htd|done].
    + right. by left.
  - right. by right.
Qed.

Lemma dates_parse_not_both ws :
  Forall (λ w, is_Some (strptime (date_added w))) ws →
  Exists (λ w, strptime (date_added w) = None) ws → False.
Proof.
  intros Hall (w & Hw & Hnone)%Exists_exists.
  eapply Forall_forall in Hall; [|exact Hw].
  rewrite Hnone in Hall. by destruct Hall.
Qed.

(** The three ways [create_vocabulary_chart] ends. *)
Lemma create_vocabulary_chart_cases child name :
  (create_vocabulary_chart child name = Ok None
   ∧ (words child = [] ∨ birthday child = None))
  ∨ (create_vocabulary_chart child name = Raise ValueError
     ∧ words child ≠ []
     ∧ ∃ b, birthday child = Some b
            ∧ (strptime b = None
               ∨ Exists (λ w, strptime (date_added w) = None) (words child)))
  ∨ (∃ fig b bd,
       create_vocabulary_chart child name = Ok (Some fig)
       ∧ words child ≠ [] ∧ birthday child = Some b ∧ strptime b = Some bd
       ∧ Forall (λ w, is_Some (strptime (date_added w))) (words child)).
Proof.
  destruct (words child) as [|w ws] eqn:Hwords.
  { left. unfold create_vocabulary_chart. rewrite Hwords. eauto. }
  destruct (birthday child) as [b|] eqn:Hb.
  2:{ left. unfold create_vocabulary_chart. rewrite Hwords, Hb. eauto. }
  right. destruct (strptime b) as [bd|] eqn:Hbd.
  - destruct (dates_parse_or_not (w :: ws)) as [Hall|Hbad].
    + right.
      destruct (create_vocabulary_chart_spec child name b bd)
        as (ages & _ & _ & _ & Hfig); [by rewrite Hwords|done|done| |].
      { by rewrite Hwords. }
      eexists _, b, bd. by split; [exact Hfig|].
    + left. unfold create_vocabulary_chart. rewrite Hwords, Hb.
      rewrite (group_words_by_age_bad_date b bd) by done. eauto 10.
  - left. unfold create_vocabulary_chart. rewrite Hwords, Hb.
    rewrite group_words_by_age_no_birth by done. eauto 10.
Qed.

(** [create_vocabulary_chart] returns no chart exactly when the child has no
    word or no birthday, dates unread; it raises [ValueError] exactly when
    there is a word and a birthday and the birthday or the date of some
    entry does not parse; in every other case it returns a chart. *)
Theorem chart_outcome child name :
  (create_vocabulary_chart child name = Ok None
   ↔ words child = [] ∨ birthday child = None)
  ∧ (create_vocabulary_chart child name = Raise ValueError
     ↔ words child ≠ []
       ∧ ∃ b, birthday child = Some b
              ∧ (strptime b = None
                 ∨ Exists (λ w, strptime (date_added w) = None) (words child)))
  ∧ ((∃ fig, create_vocabulary_chart child name = Ok (Some fig))
     ↔ words child ≠ []
       ∧ ∃ b, birthday child = Some b ∧ is_Some (strptime b)
              ∧ Forall (λ w, is_Some (strptime (date_added w))) (words child)).
Proof.
  destruct (create_vocabulary_chart_cases child name)
    as [[-> Hnone]|[(-> & Hne & b & Hb & Hbad)|(fig & b & bd & -> & Hne & Hb & Hbd & Hall)]].
  all: split_and!; split; intros Hx; try done; try (by eauto 10).
  all: try (by destruct Hx as [? ?]).
  all: try (by destruct Hx as [?|?]; congruence).
  all: exfalso; destruct Hx as (Hne' & b' & Hb' & Hrest).
  - destruct Hnone; [done|congruence].
  - destruct Hnone; [done|congruence].
  - assert (b' = b) as -> by congruence.
    destruct Hrest as [[bd Hbd] Hall].
    destruct Hbad as [?|Hbad]; [congruence|]. by eapply dates_parse_not_both.
  - assert (b' = b) as -> by congruence.
    destruct Hrest as [?|Hbad]; [congruence|]. by eapply dates_parse_not_both.
Qed.

Lemma running_totals_above t l :
  Forall (λ c, 1 ≤ c) l → Forall (λ v, t < v) (running_totals t l).
Proof.
  intros Hl. revert t.
  induction Hl as [|c l Hc _ IH]; intros t; simpl; constructor; [lia|].
  eapply Forall_impl; [apply IH|]. simpl. intros; lia.
Qed.

Lemma running_totals_strict t l :
  Forall (λ c, 1 ≤ c) l → StronglySorted Z.lt (running_totals t l).
Proof.
  intros Hl. revert t.
  induction Hl as [|c l Hc Hl IH]; intros t; simpl; constructor.
  - apply IH.
  - by apply running_totals_above.
Qed.

Lemma length_le_sum l :
  Forall (λ c, 1 ≤ c) l → Z.of_nat (length l) ≤ sum l.
Proof. induction 1; simpl; lia. Qed.

Lemma ascending_NoDup_strict (l : list Z) :
  ascending id l → NoDup l → StronglySorted Z.lt l.
Proof.
  unfold ascending. induction 1 as [|a l Hl IH Ha]; intros Hnd; constructor.
  - apply IH. by apply NoDup_cons in Hnd as [_ ?].
  - apply NoDup_cons in Hnd as [Hnotin _].
    apply Forall_forall. intros b Hb.
    eapply Forall_forall in Ha; [|exact Hb]. simpl in Ha.
    assert (a ≠ b) by (intros ->; done). unfold id in Ha. lia.
Qed.

Lemma bucket_not_empty bd ws k :
  (∃ w, w ∈ ws ∧ entry_age bd w = Some k) →
  1 ≤ Z.of_nat (length (words_at bd k ws)).
Proof.
  intros (w & Hw & Hk).
  assert (word w ∈ words_at bd k ws) as Hin.
  { unfold words_at. apply list_elem_of_fmap. exists w. split; [done|].
    by apply list_elem_of_filter. }
  destruct (words_at bd k ws); [by apply elem_of_nil in Hin|simpl; lia].
Qed.

(** A chart, when there is one, has a bar for each bucket that holds a word
    and no other: at least one bar, no more bars than entries, every bar with
    at least one new word, cumulative totals that strictly increase, and
    labels made from strictly increasing ages. *)
Theorem chart_bars child name fig :
  create_vocabulary_chart child name = Ok (Some fig) →
  length (x fig) = length (y fig)
  ∧ length (customdata fig) = length (y fig)
  ∧ (1 ≤ length (y fig) ≤ length (words child))%nat
  ∧ Forall (λ c, 1 ≤ c) (customdata fig).*1
  ∧ StronglySorted Z.lt (y fig)
  ∧ ∃ ages, StronglySorted Z.lt ages ∧ x fig = map age_label ages.
Proof.
  intros Hfig.
  destruct (create_vocabulary_chart_cases child name)
    as [[Hx _]|[[Hx _]|(fig' & b & bd & _ & Hne & Hb & Hbd & Hall)]];
    [congruence|congruence|].
  destruct (create_vocabulary_chart_spec child name b bd Hne Hb Hbd Hall)
    as (ages & Hnd & Hasc & Hages & Heq).
  rewrite Hfig in Heq. injection Heq as ->. simpl.
  set (counts := map (λ k, Z.of_nat (length (words_at bd k (words child)))) ages).
  assert (Forall (λ c, 1 ≤ c) counts) as Hcounts.
  { apply Forall_forall. intros c [k [-> Hk]]%list_elem_of_fmap.
    apply bucket_not_empty. by apply Hages. }
  assert (sum counts = Z.of_nat (length (words child))) as Hsum.
  { apply bucket_sizes_sum; [done|]. apply Forall_forall. intros w Hw.
    destruct (entry_age_is_Some bd w) as [k Hk].
    { by eapply Forall_forall in Hall. }
    exists k. split; [|done]. apply Hages. eauto. }
  assert (length counts = length ages) as Hlen by apply length_map.
  pose proof (length_le_sum counts Hcounts) as Hle.
  assert (1 ≤ length ages)%nat.
  { destruct ages as [|k ages]; [|simpl; lia].
    simpl in Hsum. destruct (words child); [done|simpl in Hsum; lia]. }
  rewrite fst_zip by (unfold counts; by rewrite !length_map).
  rewrite running_totals_length, length_zip_with, Hlen, !length_map.
  split_and!; try done; try lia.
  - by apply running_totals_strict.
  - exists ages. split; [|done]. by apply ascending_NoDup_strict.
Qed.

(** Ages in months add up along a chain of dates, change sign when the two
    dates are swapped, and are 0 from a date to itself. *)
Theorem age_in_months_chain a b c k1 k2 :
  calculate_age_in_months a b = Ok k1 →
  calculate_age_in_months b c = Ok k2 →
  calculate_age_in_months a c = Ok (k1 + k2)
  ∧ calculate_age_in_months b a = Ok (- k1)
  ∧ calculate_age_in_months a a = Ok 0.
Proof.
  unfold calculate_age_in_months, parse_date.
  destruct (strptime a) as [da|]; [|done].
  destruct (strptime b) as [db|]; [|done].
  destruct (strptime c) as [dc|]; [|done]. simpl.
  intros [= <-] [= <-]. split_and!; f_equal; lia.
Qed.

(** What a chart plots does not depend on the order in which the entries
    were added, nor on the child's name: two lists with the same entries give
    the same labels, cumulative totals and counts, or fail alike. *)
Theorem chart_order_independent child child' name name' :
  words child ≡ₚ words child' → birthday child = birthday child' →
  chart_series (create_vocabulary_chart child name)
  = chart_series (create_vocabulary_chart child' name').
Proof.
  intros Hperm Hbirth.
  assert (words child = [] ↔ words child' = []) as Hnil.
  { split; intros Hx; rewrite Hx in Hperm.
    - by apply Permutation_nil_l in Hperm.
    - by apply Permutation_nil_r in Hperm. }
  destruct (create_vocabulary_chart_cases child name)
    as [[-> Hnone]|[(-> & Hne & b & Hb & Hbad)
                   |(fig & b & bd & _ & Hne & Hb & Hbd & Hall)]];
  destruct (create_vocabulary_chart_cases child' name')
    as [[-> Hnone']|[(-> & Hne' & b' & Hb' & Hbad')
                    |(fig' & b' & bd' & _ & Hne' & Hb' & Hbd' & Hall')]];
  try done.
  1-6: exfalso; rewrite <-?Hperm in *; rewrite <-?Hbirth in *.
  - destruct Hnone as [?%Hnil|?]; [done|congruence].
  - destruct Hnone as [?%Hnil|?]; [done|congruence].
  - destruct Hnone' as [?%Hnil|?]; [done|congruence].
  - assert (b' = b) as -> by congruence.
    destruct Hbad as [?|Hbad]; [congruence|]. by eapply dates_parse_not_both.
  - destruct Hnone' as [?%Hnil|?]; [done|congruence].
  - assert (b' = b) as -> by congruence.
    destruct Hbad' as [?|Hbad']; [congruence|].
    by eapply dates_parse_not_both.
  - assert (b' = b) as -> by congruence.
    assert (bd' = bd) as -> by congruence.
    destruct (create_vocabulary_chart_spec child name b bd Hne Hb Hbd Hall)
      as (ages & Hnd & Hasc & Hages & ->).
    destruct (create_vocabulary_chart_spec child' name' b bd Hne' Hb' Hbd' Hall')
      as (ages' & Hnd' & Hasc' & Hages' & ->).
    assert (ages' = ages) as ->.
    { apply (StronglySorted_unique Z.le); [done|done|].
      apply NoDup_Permutation; [done|done|].
      intros k. rewrite Hages, Hages'. by setoid_rewrite Hperm. }
    assert (∀ k, length (words_at bd k (words child'))
                 = length (words_at bd k (words child))) as Hcount.
    { intros k. unfold words_at. by rewrite !length_map, Hperm. }
    simpl. rewrite !fst_zip by (by rewrite !length_map).
    by rewrite (map_ext _ _ (λ k, f_equal Z.of_nat (Hcount k))).
Qed.

End AggregatorMore.

(** ** The store and the forms

    [main] admits every run of the script in which the store allows the
    button; a page that fails while it is drawn offers fewer.  What holds
    of every step [main] admits holds of the program. *)

Lemma reverse_insert_mirror {A} (l : list A) (i : nat) (a : A) :
  (i < length l)%nat →
  reverse (<[(length l - 1 - i)%nat := a]> l) = <[i := a]> (reverse l).
Proof.
  intros Hi. apply list_eq. intros j.
  destruct (decide (j < length l)%nat) as [Hj|Hj].
  - rewrite reverse_lookup by (by rewrite length_insert).
    rewrite length_insert.
    destruct (decide (i = j)) as [->|Hne].
    + rewrite list_lookup_insert_eq by (rewrite length_reverse; lia).
      replace (length l - S j)%nat with (length l - 1 - j)%nat by lia.
      apply list_lookup_insert_eq. lia.
    + rewrite !list_lookup_insert_ne by lia. by rewrite reverse_lookup.
  - rewrite !lookup_ge_None_2; [done| |];
      rewrite ?length_insert, length_reverse, ?length_insert; lia.
Qed.

Lemma reverse_delete_mirror {A} (l : list A) (i : nat) :
  (i < length l)%nat →
  reverse (delete (length l - 1 - i)%nat l) = delete i (reverse l).
Proof.
  intros Hi.
  assert (length (delete (length l - 1 - i)%nat l) = (length l - 1)%nat) as Hlen.
  { rewrite length_delete; [done|]. apply lookup_lt_is_Some. lia. }
  apply list_eq. intros j.
  destruct (decide (j < length l - 1)%nat) as [Hj|Hj].
  - rewrite reverse_lookup by lia. rewrite Hlen.
    destruct (decide (j < i)%nat) as [Hji|Hji].
    + rewrite (list_lookup_delete_ge l) by lia.
      rewrite (list_lookup_delete_lt (reverse l)) by lia.
      rewrite reverse_lookup by lia. f_equal. lia.
    + rewrite (list_lookup_delete_lt l) by lia.
      rewrite (list_lookup_delete_ge (reverse l)) by lia.
      rewrite reverse_lookup by lia. f_equal. lia.
  - rewrite lookup_ge_None_2 by (rewrite length_reverse; lia).
    symmetry. apply lookup_ge_None_2. rewrite length_delete, length_reverse.
    + lia.
    + apply lookup_lt_is_Some. rewrite length_reverse. lia.
Qed.

Section MainProperties.
Context `{PyRuntime} `{PyText}.

(** Turns a step of [main] into the cases of its forms. *)
Ltac main_cases Hstep :=
  unfold main, child_form, register, logout, add_child, add_birthday,
    add_word, save_changes, delete_word, delete_child in Hstep;
  repeat (case_match; simplify_option_eq; try done).

(** A run of the script either saves what it changed or changes nothing. *)
Lemma main_saves app e app' feedback :
  main app e = Some (app', feedback) →
  (feedback = Rerun ∧ data_file app' = Some (data app'))
  ∨ ((∃ msg, feedback = Error msg) ∧ app' = app).
Proof. intros Hstep. main_cases Hstep; eauto. Qed.

Lemma run_invariant (P : App → Prop) (Q : Event → Prop) :
  (∀ app e app' feedback,
     P app → Q e → main app e = Some (app', feedback) → P app') →
  ∀ app events app',
    run app events app' → Forall Q events → P app → P app'.
Proof.
  intros Hstep app events app' Hrun.
  induction Hrun as [|app e app' feedback events app'' Hmain _ IH]; [done|].
  intros [Hq Hqs]%Forall_cons Hp. apply IH; [done|]. by eapply Hstep.
Qed.

(** Whatever the buttons pressed, the file holds the data of the session:
    loading [data.json] again gives the store the pages show. *)
Theorem file_in_sync file events app :
  run (start file) events app → load_data (data_file app) = data app.
Proof.
  intros Hrun.
  apply (run_invariant (λ a, load_data (data_file a) = data a) (λ _, True))
    with (app := start file) (events := events); [|done| |done].
  - intros a e a' feedback Ha _ Hstep.
    destruct (main_saves a e a' feedback Hstep) as [[_ Hsaved]|[_ ->]]; [|done].
    by rewrite Hsaved.
  - by apply Forall_true.
Qed.

(** A run of the script changes at most one child: the selected one, or
    the one the sidebar form names.  Every other child, and every child when
    the run registers or logs out, is as it was. *)
Theorem other_children_untouched app e app' feedback c :
  main app e = Some (app', feedback) →
  target e ≠ Some c →
  children (data app') !! c = children (data app) !! c.
Proof.
  intros Hstep Htarget. main_cases Hstep; simpl in *;
    try (rewrite lookup_insert_ne by congruence);
    try (rewrite lookup_delete_ne by congruence); done.
Qed.

(** The sidebar form never overwrites: a child that is in the store is the
    same after the form is submitted, whatever name was typed; a name that
    is taken or empty leaves the store as it is and shows an error. *)
Theorem add_child_never_overwrites app child_name child_birthday c child_data :
  children (data app) !! c = Some child_data →
  children (data (add_child app child_name child_birthday).1) !! c
  = Some child_data
  ∧ (child_name = c ∨ child_name = "" →
     (add_child app child_name child_birthday).1 = app
     ∧ ∃ msg, (add_child app child_name child_birthday).2 = Error msg).
Proof.
  intros Hc. unfold add_child. split.
  - case_decide; [done|].
    destruct (children (data app) !! child_name) eqn:Hname; [done|].
    simpl. rewrite lookup_insert_ne; [done|]. congruence.
  - intros Hname. case_decide; [eauto|].
    destruct Hname as [->|?]; [|done]. rewrite Hc. eauto.
Qed.

(** A birthday, once set, is never changed: whatever the button, a child
    that had a birthday and is still in the store has the same birthday.
    Only deleting the child removes it. *)
Theorem birthday_is_kept app e app' feedback c child_data b child' :
  main app e = Some (app', feedback) →
  children (data app) !! c = Some child_data →
  birthday child_data = Some b →
  children (data app') !! c = Some child' →
  birthday child' = Some b.
Proof.
  intros Hstep Hc Hb Hc'. main_cases Hstep; simpl in *;
    try (rewrite lookup_insert in Hc'; case_decide);
    try (apply lookup_delete_Some in Hc' as [_ Hc']);
    simplify_eq; simpl; congruence.
Qed.

Lemma main_well_formed app e app' feedback :
  well_formed (data app) → from_slider e →
  main app e = Some (app', feedback) → well_formed (data app').
Proof.
  unfold well_formed. intros Hwf Hslider Hstep.
  main_cases Hstep; simpl in *; try done.
  all: try (by apply map_Forall_delete).
  all: apply map_Forall_insert_2; [|exact Hwf].
  all: try match goal with
       | Hc : children _ !! _ = Some _ |- _ =>
           destruct (map_Forall_lookup_1 _ _ _ _ Hwf Hc) as (Hname & Hbirth & Hws)
       end.
  all: split_and!; simpl; eauto.
  - congruence.
  - apply Forall_app. split; [done|]. repeat constructor. eauto.
  - apply Forall_insert; eauto.
  - by apply Forall_delete.
Qed.

(** Starting from a store in which every child has a name and a birthday
    and every entry a confidence the slider can give (the empty store of a
    first start is one), the store stays so whatever buttons are pressed, as
    long as the confidences entered come from the slider. *)
Theorem store_stays_well_formed file events app :
  well_formed (load_data file) →
  run (start file) events app →
  Forall from_slider events →
  well_formed (data app).
Proof.
  intros Hwf Hrun Hevents.
  apply (run_invariant (λ a, well_formed (data a)) from_slider)
    with (app := start file) (events := events); try done.
  intros a e a' feedback Ha He Hstep. by eapply main_well_formed.
Qed.

Lemma run_events_run app events app' :
  run_events app events = Some app' → run app events app'.
Proof.
  revert app. induction events as [|e events IH]; intros app; simpl.
  - intros [= ->]. constructor.
  - destruct (main app e) as [[app1 feedback]|] eqn:Hstep; [|done].
    intros Hrest. econstructor; [exact Hstep|by apply IH].
Qed.

(** The edit form at position [idx] of the list, shown newest first,
    replaces the entry shown at that position and no other: the list shown
    afterwards is the list shown before with that one entry exchanged; the
    birthday stays. *)
Theorem save_changes_edits_shown_entry app c child_data idx
    edit_word edit_date edit_speaks edit_asl edit_confidence app' feedback :
  children (data app) !! c = Some child_data →
  main app (SaveChanges c idx edit_word edit_date edit_speaks edit_asl
                        edit_confidence) = Some (app', feedback) →
  feedback = Rerun
  ∧ ∃ child',
      children (data app') !! c = Some child'
      ∧ birthday child' = birthday child_data
      ∧ shown_words child'
        = <[idx := form_entry edit_word edit_date edit_speaks edit_asl
                              edit_confidence]> (shown_words child_data)
      ∧ shown_words child' !! idx
        = Some (form_entry edit_word edit_date edit_speaks edit_asl
                           edit_confidence).
Proof.
  intros Hc Hstep. main_cases Hstep. split; [done|].
  eexists. split; [apply lookup_insert_eq|]. split; [done|].
  unfold shown_words, actual_idx. simpl.
  rewrite reverse_insert_mirror by done. split; [done|].
  apply list_lookup_insert_eq. by rewrite length_reverse.
Qed.

(** The delete button at position [idx] of the list, shown newest first,
    removes the entry shown at that position and no other; the rest keeps
    its order. *)
Theorem delete_word_removes_shown_entry app c child_data idx app' feedback :
  children (data app) !! c = Some child_data →
  main app (DeleteWord c idx) = Some (app', feedback) →
  feedback = Rerun
  ∧ ∃ child',
      children (data app') !! c = Some child'
      ∧ birthday child' = birthday child_data
      ∧ shown_words child' = delete idx (shown_words child_data)
      ∧ S (length (words child')) = length (words child_data).
Proof.
  intros Hc Hstep. main_cases Hstep. split; [done|].
  eexists. split; [apply lookup_insert_eq|]. split; [done|].
  unfold shown_words, actual_idx. simpl.
  rewrite reverse_delete_mirror by done. split; [done|].
  rewrite length_delete; [lia|]. apply lookup_lt_is_Some. lia.
Qed.

(** The word form with an empty text changes nothing and shows an error;
    with a text it adds one entry, made of the values of the form with the
    text stripped, which the list then shows first, above the entries it
    showed before. *)
Theorem add_word_shown_first app c child_data new_word word_date
    speaks_box asl_box slider app' feedback :
  children (data app) !! c = Some child_data →
  main app (AddWord c new_word word_date speaks_box asl_box slider)
  = Some (app', feedback) →
  (new_word = "" ∧ app' = app ∧ feedback = Error "Please enter a word")
  ∨ (new_word ≠ "" ∧ feedback = Rerun
     ∧ ∃ child',
         children (data app') !! c = Some child'
         ∧ birthday child' = birthday child_data
         ∧ shown_words child'
           = form_entry new_word word_date speaks_box asl_box slider
             :: shown_words child_data).
Proof.
  intros Hc Hstep. main_cases Hstep; [by left|]. right.
  split; [done|]. split; [done|].
  eexists. split; [apply lookup_insert_eq|]. split; [done|].
  unfold shown_words. simpl. apply reverse_snoc.
Qed.

Lemma fill_records_unknown df child :
  Forall (λ r, in_vocab r = false →
               ∀ w, w ∈ words child → lower (pw_word r) ≠ lower (word w))
         (get_practice_words df child).
Proof.
  rewrite get_practice_words_eq. apply Forall_app. split.
  - eapply Forall_impl; [apply Forall_take, sorted_low_in_vocab|].
    simpl. intros r Hr. by rewrite Hr.
  - apply Forall_take, Forall_forall.
    intros r [row [-> Hrow]]%list_elem_of_fmap _. simpl.
    by apply (fresh_row_unknown df child).
Qed.

(** Once a word is added it is no longer suggested as a new word, in
    whatever casing the table has it.  Added with a confidence of 50 or
    more it leaves the child's own recommendations as they were; added
    with less, it is recommended itself when the child had fewer than five
    low-confidence entries. *)
Theorem added_word_and_recommendations app c child_data new_word word_date
    speaks_box asl_box slider app' df :
  children (data app) !! c = Some child_data →
  main app (AddWord c new_word word_date speaks_box asl_box slider)
  = Some (app', Rerun) →
  ∃ child',
    children (data app') !! c = Some child'
    ∧ Forall (λ r, in_vocab r = false →
                   lower (pw_word r) ≠ lower (strip new_word))
             (get_practice_words df child')
    ∧ (50 ≤ slider → sorted_low df child' = sorted_low df child_data)
    ∧ (slider < 50 →
       (length (filter (λ w, (get_confidence w < 50)%Z) (words child_data))
        < 5)%nat →
       practice_record df (form_entry new_word word_date speaks_box asl_box
                                      slider)
       ∈ get_practice_words df child').
Proof.
  intros Hc Hstep. main_cases Hstep.
  set (e := form_entry new_word word_date speaks_box asl_box slider).
  set (child' := set_words child_data (words child_data ++ [e])).
  exists child'. split; [apply lookup_insert_eq|].
  assert (e ∈ words child') as He by (apply elem_of_app; right; left).
  assert (get_confidence e = slider) as Hget by done.
  split_and!.
  - eapply Forall_impl; [apply (fill_records_unknown df child')|].
    simpl. intros r Hr Hfill. by apply (Hr Hfill e).
  - intros Hhigh. unfold sorted_low. rewrite !low_confidence_eq. simpl.
    rewrite filter_app, filter_cons_False, filter_nil, app_nil_r; [done|].
    rewrite Hget. lia.
  - intros Hlow Hfew. apply sorted_low_in_result.
    + unfold sorted_low.
      rewrite sort_by_length, low_confidence_eq, length_map. simpl.
      rewrite filter_app, length_app.
      pose proof (length_filter (λ w, get_confidence w < 50) [e]).
      simpl in *. lia.
    + apply selected_in_sorted_low; [done|]. rewrite Hget. lia.
Qed.

(** In a store where every child has a birthday and every confidence comes
    from the slider, the chart is missing only for a child without words,
    and every recommendation reports a confidence between 0 and 45. *)
Theorem well_formed_store_is_safe d name child_data child_name df :
  well_formed d → children d !! name = Some child_data →
  (create_vocabulary_chart child_data child_name = Ok None
   ↔ words child_data = [])
  ∧ Forall (λ r, 0 ≤ pw_confidence r ≤ 45) (get_practice_words df child_data).
Proof.
  intros Hwf Hc.
  destruct (map_Forall_lookup_1 _ _ _ _ Hwf Hc) as (_ & [b Hb] & Hws).
  split.
  - split.
    + intros Hnone.
      destruct (create_vocabulary_chart_cases child_data child_name)
        as [[_ [?|?]]|[[Hx _]|(fig & _ & _ & Hx & _)]]; congruence.
    + intros Hnil. unfold create_vocabulary_chart. by rewrite Hnil.
  - rewrite get_practice_words_eq. apply Forall_app. split.
    + eapply Forall_impl; [apply Forall_take, sorted_low_records|].
      simpl. intros r (w & Hw & Hlow & ->). simpl.
      eapply Forall_forall in Hws; [|exact Hw].
      destruct Hws as (conf & Hconf & [Hrange [z Hz]]).
      unfold get_confidence in *. rewrite Hconf in *. simpl in *. lia.
    + apply Forall_take, Forall_forall.
      intros r [row [-> _]]%list_elem_of_fmap. simpl. lia.
Qed.

End MainProperties.

(** ** Examples

    The theorems above at concrete children, with the runtime
    [example_runtime]. *)

#[local] Existing Instance example_runtime.

Example recommend_child_up :
  get_practice_words typical_table child_up
  = [ {| pw_word := "Up"; pw_confidence := 30; typical_age := 9;
         in_vocab := true; strategy := NaN |};
      typical_word {| Word := "mama"; Typical_Age := 8;
                      Learning_Strategy := Some (Text "Point to yourself and say mama.") |};
      typical_word {| Word := "dada"; Typical_Age := 8;
                      Learning_Strategy := Some (Text "Point to dad and say dada.") |};
      typical_word {| Word := "ball"; Typical_Age := 12;
                      Learning_Strategy := Some (Text "Roll a ball and name it.") |};
      typical_word {| Word := "dog"; Typical_Age := 10;
                      Learning_Strategy := Some NaN |} ].
Proof. by vm_compute. Qed.

Example chart_child_dated :
  create_vocabulary_chart child_dated "Ann"
  = Ok (Some {| x := ["-1 months"; "2 months"];
                y := [1; 3];
                customdata := [(1, "hi"); (2, "up<br>ball")];
                title := "Ann's Vocabulary Growth" |}).
Proof. by vm_compute. Qed.

(** C3, as first stated, fails: no low-confidence word, a table of six
    rows, and only four records come back, because the child's one word is
    in the table and the table has no more than five others. *)
Lemma fallback_completeness_counterexample :
  Forall (λ w, 50 ≤ get_confidence w) (words child_mama)
  ∧ (5 ≤ length (take 5 typical_table))%nat
  ∧ length (get_practice_words (take 5 typical_table) child_mama) = 4%nat.
Proof.
  split_and!.
  - each ltac:(vm_compute; discriminate).
  - vm_compute. lia.
  - by vm_compute.
Qed.

Lemma fallback_completeness_witness :
  Forall (λ w, 50 ≤ get_confidence w) (words child_mama)
  ∧ (5 ≤ length (fresh_rows typical_table child_mama))%nat
  ∧ (length (get_practice_words typical_table child_mama) = 5%nat
     ∧ Forall (λ r, in_vocab r = false)
              (get_practice_words typical_table child_mama)
     ∧ get_practice_words typical_table child_mama
       = map typical_word (take 5 (fresh_rows typical_table child_mama))).
Proof.
  split; [each ltac:(vm_compute; discriminate)|].
  split; [vm_compute; lia|].
  apply (fallback_completeness typical_table child_mama).
  - each ltac:(vm_compute; discriminate).
  - vm_compute. lia.
Defined.

Lemma cumulative_series_witness :
  birthday child_dated = Some "2024-01-15"
  ∧ strptime "2024-01-15" = Some {| year := 2024; month := 1; day := 15 |}
  ∧ Forall (λ w, is_Some (strptime (date_added w))) (words child_dated)
  ∧ ∃ r, create_vocabulary_chart child_dated "Ann" = Ok r
         ∧ StronglySorted Z.le (cumulative_totals r)
         ∧ sum (new_word_counts r) = Z.of_nat (length (words child_dated))
         ∧ (words child_dated ≠ [] →
            is_Some r
            ∧ last (cumulative_totals r)
              = Some (Z.of_nat (length (words child_dated)))).
Proof.
  split; [reflexivity|]. split; [reflexivity|].
  split; [each ltac:(vm_compute; eexists; reflexivity)|].
  apply (cumulative_series child_dated "Ann" "2024-01-15"
           {| year := 2024; month := 1; day := 15 |}).
  - reflexivity.
  - reflexivity.
  - each ltac:(vm_compute; eexists; reflexivity).
Defined.

Lemma age_bucket_witness :
  birthday child_dated = Some "2024-01-15"
  ∧ strptime "2024-01-15" = Some {| year := 2024; month := 1; day := 15 |}
  ∧ Forall (λ w, is_Some (strptime (date_added w))) (words child_dated)
  ∧ entry "hi" "2023-12-31" (Some 90) ∈ words child_dated
  ∧ strptime "2023-12-31" = Some {| year := 2023; month := 12; day := 31 |}
  ∧ calculate_age_in_months "2024-01-15" "2023-12-31" = Ok (-1)
  ∧ ∃ fig i,
      create_vocabulary_chart child_dated "Ann" = Ok (Some fig)
      ∧ x fig !! i = Some (age_label (-1))
      ∧ customdata fig !! i
        = Some (Z.of_nat (length (words_at {| year := 2024; month := 1; day := 15 |}
                                           (-1) (words child_dated))),
                String.concat "<br>"
                  (words_at {| year := 2024; month := 1; day := 15 |}
                            (-1) (words child_dated)))
      ∧ "hi" ∈ words_at {| year := 2024; month := 1; day := 15 |}
                        (-1) (words child_dated).
Proof.
  split; [reflexivity|]. split; [reflexivity|].
  split; [each ltac:(vm_compute; eexists; reflexivity)|].
  split; [right; left|]. split; [reflexivity|].
  destruct (age_bucket child_dated "Ann" "2024-01-15"
              {| year := 2024; month := 1; day := 15 |}
              (entry "hi" "2023-12-31" (Some 90))
              {| year := 2023; month := 12; day := 31 |})
    as (Hage & _ & _ & Hfig).
  - reflexivity.
  - reflexivity.
  - each ltac:(vm_compute; eexists; reflexivity).
  - right; left.
  - reflexivity.
  - split; [exact Hage|exact Hfig].
Defined.

(** C5, as first stated, fails: the entry is dated five days before the
    birthday, in the same month, and its bucket is 0, not a negative number;
    the chart shows it at "0 months". *)
Lemma age_bucket_counterexample :
  strptime "2024-01-15" = Some {| year := 2024; month := 1; day := 15 |}
  ∧ strptime "2024-01-10" = Some {| year := 2024; month := 1; day := 10 |}
  ∧ predates {| year := 2024; month := 1; day := 10 |}
             {| year := 2024; month := 1; day := 15 |}
  ∧ calculate_age_in_months "2024-01-15" "2024-01-10" = Ok 0
  ∧ ¬ (0 < 0)
  ∧ chart_series
      (create_vocabulary_chart
         {| words := [entry "hi" "2024-01-10" (Some 90)];
            birthday := Some "2024-01-15" |} "Ann")
    = Ok (Some (["0 months"], [1], [1])).
Proof.
  split_and!; try reflexivity.
  - right. split; [reflexivity|]. right. split; [reflexivity|]. simpl. lia.
  - lia.
Qed.

(** C6, as first stated, fails for the recommender: the child has no word
    and five records come back, the first five rows of the table. *)
Lemma empty_vocabulary_counterexample :
  words child_new = []
  ∧ get_practice_words typical_table child_new ≠ []
  ∧ get_practice_words typical_table child_new
    = map typical_word (take 5 typical_table).
Proof. split_and!; [done|by vm_compute|by vm_compute]. Qed.

Lemma empty_vocabulary_witness :
  words child_new = []
  ∧ (get_practice_words typical_table child_new
     = map typical_word (take 5 typical_table)
     ∧ (get_practice_words typical_table child_new = [] ↔ typical_table = [])
     ∧ create_vocabulary_chart child_new "Ann" = Ok None).
Proof.
  split; [reflexivity|].
  apply (empty_vocabulary typical_table child_new "Ann"). reflexivity.
Defined.

(** C7: the fallback is missed where the claim asks for it.  On the table
    without the strategy column the record of the child's word "Up", a word
    of the table, has the empty text for strategy, while the rows added by
    the fill step, read from the same table, have the fallback text.  On the
    table with the column, the empty cell of "up" gives the record [nan],
    and the row of "dog", whose cell is empty too, is added with [nan]: in
    neither place the fallback text. *)
Theorem strategy_fallback_missed :
  get_practice_words typical_table_plain child_up
  = [ {| pw_word := "Up"; pw_confidence := 30; typical_age := 9;
         in_vocab := true; strategy := Text "" |};
      {| pw_word := "mama"; pw_confidence := 0; typical_age := 8;
         in_vocab := false; strategy := Text default_strategy |};
      {| pw_word := "dada"; pw_confidence := 0; typical_age := 8;
         in_vocab := false; strategy := Text default_strategy |};
      {| pw_word := "ball"; pw_confidence := 0; typical_age := 12;
         in_vocab := false; strategy := Text default_strategy |};
      {| pw_word := "dog"; pw_confidence := 0; typical_age := 10;
         in_vocab := false; strategy := Text default_strategy |} ]
  ∧ get_practice_words typical_table child_up
    = [ {| pw_word := "Up"; pw_confidence := 30; typical_age := 9;
           in_vocab := true; strategy := NaN |};
        {| pw_word := "mama"; pw_confidence := 0; typical_age := 8;
           in_vocab := false;
           strategy := Text "Point to yourself and say mama." |};
        {| pw_word := "dada"; pw_confidence := 0; typical_age := 8;
           in_vocab := false; strategy := Text "Point to dad and say dada." |};
        {| pw_word := "ball"; pw_confidence := 0; typical_age := 12;
           in_vocab := false; strategy := Text "Roll a ball and name it." |};
        {| pw_word := "dog"; pw_confidence := 0; typical_age := 10;
           in_vocab := false; strategy := NaN |} ]
  ∧ Text "" ≠ Text default_strategy
  ∧ NaN ≠ Text default_strategy.
Proof. split_and!; [by vm_compute|by vm_compute|discriminate|discriminate]. Qed.

(** C8, as first stated, fails: confidences of -5 and 150 are in the
    child's list and [get_practice_words] returns its list all the same, the
    -5 reported as it is stored. *)
Lemma confidence_not_validated_counterexample :
  entry "uh-oh" "2024-11-03" (Some (-5)) ∈ words child_odd
  ∧ entry "bye" "2024-11-09" (Some 150) ∈ words child_odd
  ∧ get_practice_words [] child_odd
    = [ {| pw_word := "uh-oh"; pw_confidence := -5; typical_age := 999;
           in_vocab := true; strategy := Text default_strategy |};
        {| pw_word := "moo"; pw_confidence := 0; typical_age := 999;
           in_vocab := true; strategy := Text default_strategy |} ].
Proof.
  split_and!.
  - left.
  - right; left.
  - by vm_compute.
Qed.

Lemma confidence_not_validated_witness :
  entry "uh-oh" "2024-11-03" (Some (-5)) ∈ words child_odd
  ∧ confidence (entry "uh-oh" "2024-11-03" (Some (-5))) = Some (-5)
  ∧ (-5 < 0 ∨ 100 < -5)
  ∧ pw_confidence
      (practice_record typical_table (entry "uh-oh" "2024-11-03" (Some (-5))))
    = -5
  ∧ practice_record typical_table (entry "uh-oh" "2024-11-03" (Some (-5)))
    ∈ get_practice_words typical_table child_odd.
Proof.
  split; [left|]. split; [reflexivity|]. split; [left; lia|].
  destruct (confidence_not_validated typical_table child_odd
              (entry "uh-oh" "2024-11-03" (Some (-5))) (-5))
    as (Hconf & Hneg & _).
  - left.
  - reflexivity.
  - left; lia.
  - split; [exact Hconf|]. apply Hneg; [lia|]. vm_compute. lia.
Defined.

Lemma missing_confidence_is_zero_witness :
  entry "moo" "2024-11-21" None ∈ words child_odd
  ∧ confidence (entry "moo" "2024-11-21" None) = None
  ∧ pw_confidence (practice_record typical_table (entry "moo" "2024-11-21" None))
    = 0
  ∧ practice_record typical_table (entry "moo" "2024-11-21" None)
    ∈ get_practice_words typical_table child_odd.
Proof.
  split; [do 2 right; left|]. split; [reflexivity|].
  destruct (missing_confidence_is_zero typical_table child_odd
              (entry "moo" "2024-11-21" None))
    as (Hzero & _ & _ & Hresult).
  - do 2 right; left.
  - reflexivity.
  - split; [exact Hzero|]. apply Hresult. vm_compute. lia.
Defined.

(** ** Examples for the rest of the program *)

#[local] Existing Instance example_text.

Ltac slider_ok :=
  first [ exact I
        | split; [lia | match goal with |- (5 | ?c) => exists (c / 5) end;
                        reflexivity] ].

Example first_session_runs : run_events (start None) first_session = Some app_ann.
Proof. by vm_compute. Qed.

Lemma five_low_confidence_entries_witness :
  (5 ≤ length (filter (λ w, (get_confidence w < 50)%Z) (words child_shaky)))%nat
  ∧ length (get_practice_words typical_table child_shaky) = 5%nat
  ∧ Forall (λ r, in_vocab r = true)
           (get_practice_words typical_table child_shaky).
Proof.
  split; [vm_compute; lia|].
  destruct (five_low_confidence_entries typical_table child_shaky)
    as (_ & Hlen & Hall).
  - vm_compute. lia.
  - split; [exact Hlen|exact Hall].
Defined.

Lemma typical_age_listed_witness :
  lower "ball" = lower "BALL"
  ∧ absent (drop 3 typical_table) "BALL"
  ∧ typical_age (practice_record typical_table
                   (entry "BALL" "2024-10-20" (Some 10))) = 12.
Proof.
  split; [reflexivity|].
  split; [each ltac:(vm_compute; discriminate)|].
  exact (typical_age_listed (take 2 typical_table)
           {| Word := "ball"; Typical_Age := 12;
              Learning_Strategy := Some (Text "Roll a ball and name it.") |}
           (drop 3 typical_table)
           (entry "BALL" "2024-10-20" (Some 10))
           eq_refl
           ltac:(each ltac:(vm_compute; discriminate))).
Defined.

Lemma well_known_word_not_recommended_witness :
  entry "mama" "2024-09-02" (Some 80) ∈ words child_mama
  ∧ (∀ w, w ∈ words child_mama → lower (word w) = lower "mama" →
          50 ≤ get_confidence w)
  ∧ Forall (λ r, lower (pw_word r) ≠ lower "mama")
           (get_practice_words typical_table child_mama).
Proof.
  assert (∀ w, w ∈ words child_mama → lower (word w) = lower "mama" →
               50 ≤ get_confidence w) as Hknown.
  { intros w Hw _. apply list_elem_of_singleton in Hw as ->.
    vm_compute. discriminate. }
  split; [left|]. split; [exact Hknown|].
  apply (well_known_word_not_recommended typical_table child_mama
           (entry "mama" "2024-09-02" (Some 80))).
  - left.
  - exact Hknown.
Defined.

Lemma chart_bars_witness :
  ∃ fig,
    create_vocabulary_chart child_dated "Ann" = Ok (Some fig)
    ∧ (1 ≤ length (y fig) ≤ length (words child_dated))%nat
    ∧ StronglySorted Z.lt (y fig)
    ∧ ∃ ages, StronglySorted Z.lt ages ∧ x fig = map age_label ages.
Proof.
  eexists. split; [reflexivity|].
  match goal with
  | |- context [y ?fig] =>
      destruct (chart_bars child_dated "Ann" fig) as (_ & _ & Hn & _ & Hy & Hx)
  end.
  - reflexivity.
  - split; [exact Hn|]. split; [exact Hy|exact Hx].
Defined.

Lemma age_in_months_chain_witness :
  calculate_age_in_months "2024-01-15" "2024-03-10" = Ok 2
  ∧ calculate_age_in_months "2024-03-10" "2025-02-01" = Ok 11
  ∧ calculate_age_in_months "2024-01-15" "2025-02-01" = Ok (2 + 11)
  ∧ calculate_age_in_months "2024-03-10" "2024-01-15" = Ok (- 2)
  ∧ calculate_age_in_months "2024-01-15" "2024-01-15" = Ok 0.
Proof.
  split; [reflexivity|]. split; [reflexivity|].
  apply (age_in_months_chain "2024-01-15" "2024-03-10" "2025-02-01" 2 11);
    reflexivity.
Defined.

Lemma chart_order_independent_witness :
  words child_dated ≡ₚ words child_dated_shuffled
  ∧ birthday child_dated = birthday child_dated_shuffled
  ∧ chart_series (create_vocabulary_chart child_dated "Ann")
    = chart_series (create_vocabulary_chart child_dated_shuffled "Ann").
Proof.
  assert (words child_dated ≡ₚ words child_dated_shuffled) as Hperm.
  { apply (Permutation_app_comm [_; _] [_]). }
  split; [exact Hperm|]. split; [reflexivity|].
  apply (chart_order_independent child_dated child_dated_shuffled "Ann" "Ann").
  - exact Hperm.
  - reflexivity.
Defined.

Lemma file_in_sync_witness :
  run (start None) first_session app_ann
  ∧ load_data (data_file app_ann) = data app_ann.
Proof.
  assert (run (start None) first_session app_ann) as Hrun.
  { apply run_events_run. vm_compute. reflexivity. }
  split; [exact Hrun|].
  apply (file_in_sync None first_session app_ann). exact Hrun.
Defined.

Lemma store_stays_well_formed_witness :
  well_formed (load_data None)
  ∧ run (start None) first_session app_ann
  ∧ Forall from_slider first_session
  ∧ well_formed (data app_ann).
Proof.
  assert (run (start None) first_session app_ann) as Hrun.
  { apply run_events_run. vm_compute. reflexivity. }
  assert (Forall from_slider first_session) as Hslider by each slider_ok.
  split; [apply map_Forall_empty|]. split; [exact Hrun|].
  split; [exact Hslider|].
  apply (store_stays_well_formed None first_session app_ann).
  - apply map_Forall_empty.
  - exact Hrun.
  - exact Hslider.
Defined.

Lemma other_children_untouched_witness :
  ∃ app',
    main app_ann (AddChild "Ben" "2023-05-05") = Some (app', Rerun)
    ∧ target (AddChild "Ben" "2023-05-05") ≠ Some "Ann"
    ∧ children (data app') !! "Ann" = children (data app_ann) !! "Ann".
Proof.
  eexists. split; [reflexivity|]. split; [discriminate|].
  eapply (other_children_untouched app_ann (AddChild "Ben" "2023-05-05")).
  - reflexivity.
  - discriminate.
Defined.

Lemma add_child_never_overwrites_witness :
  children (data app_ann) !! "Ann" = Some child_ann
  ∧ children (data (add_child app_ann "Ann" "2020-02-02").1) !! "Ann"
    = Some child_ann
  ∧ (add_child app_ann "Ann" "2020-02-02").1 = app_ann.
Proof.
  split; [reflexivity|].
  destruct (add_child_never_overwrites app_ann "Ann" "2020-02-02"
              "Ann" child_ann) as [Hsame Herror].
  - reflexivity.
  - split; [exact Hsame|]. apply Herror. by left.
Defined.

Lemma save_changes_edits_shown_entry_witness :
  ∃ app' child',
    children (data app_ann) !! "Ann" = Some child_ann
    ∧ main app_ann (SaveChanges "Ann" 0 "Ball " "2024-04-21" true false 45)
      = Some (app', Rerun)
    ∧ children (data app') !! "Ann" = Some child'
    ∧ shown_words child'
      = <[0%nat := form_entry "Ball " "2024-04-21" true false 45]>
          (shown_words child_ann).
Proof.
  destruct (save_changes_edits_shown_entry app_ann "Ann" child_ann 0
              "Ball " "2024-04-21" true false 45
              (save_changes app_ann "Ann" child_ann 0
                 "Ball " "2024-04-21" true false 45).1 Rerun)
    as (_ & child' & Hc & _ & Hshown & _).
  - reflexivity.
  - reflexivity.
  - eexists _, child'. split; [reflexivity|]. split; [reflexivity|].
    split; [exact Hc|exact Hshown].
Defined.

Lemma delete_word_removes_shown_entry_witness :
  ∃ app' child',
    children (data app_ann) !! "Ann" = Some child_ann
    ∧ main app_ann (DeleteWord "Ann" 1) = Some (app', Rerun)
    ∧ children (data app') !! "Ann" = Some child'
    ∧ shown_words child' = delete 1%nat (shown_words child_ann).
Proof.
  destruct (delete_word_removes_shown_entry app_ann "Ann" child_ann 1
              (delete_word app_ann "Ann" child_ann 1).1 Rerun)
    as (_ & child' & Hc & _ & Hshown & _).
  - reflexivity.
  - reflexivity.
  - eexists _, child'. split; [reflexivity|]. split; [reflexivity|].
    split; [exact Hc|exact Hshown].
Defined.

Lemma add_word_shown_first_witness :
  ∃ app' child',
    children (data app_ann) !! "Ann" = Some child_ann
    ∧ main app_ann (AddWord "Ann" " dog" "2024-05-05" true false 20)
      = Some (app', Rerun)
    ∧ children (data app') !! "Ann" = Some child'
    ∧ shown_words child'
      = form_entry " dog" "2024-05-05" true false 20 :: shown_words child_ann.
Proof.
  destruct (add_word_shown_first app_ann "Ann" child_ann
              " dog" "2024-05-05" true false 20
              (add_word app_ann "Ann" child_ann
                 " dog" "2024-05-05" true false 20).1 Rerun)
    as [(Hempty & _)|(_ & _ & child' & Hc & _ & Hshown)].
  - reflexivity.
  - reflexivity.
  - discriminate Hempty.
  - eexists _, child'. split; [reflexivity|]. split; [reflexivity|].
    split; [exact Hc|exact Hshown].
Defined.

Lemma added_word_and_recommendations_witness :
  ∃ app' child',
    children (data app_ann) !! "Ann" = Some child_ann
    ∧ main app_ann (AddWord "Ann" " Dog" "2024-05-05" true false 20)
      = Some (app', Rerun)
    ∧ children (data app') !! "Ann" = Some child'
    ∧ Forall (λ r, in_vocab r = false → lower (pw_word r) ≠ lower (strip " Dog"))
             (get_practice_words typical_table child')
    ∧ practice_record typical_table
        (form_entry " Dog" "2024-05-05" true false 20)
      ∈ get_practice_words typical_table child'.
Proof.
  destruct (added_word_and_recommendations app_ann "Ann" child_ann
              " Dog" "2024-05-05" true false 20
              (add_word app_ann "Ann" child_ann
                 " Dog" "2024-05-05" true false 20).1 typical_table)
    as (child' & Hc & Hfill & _ & Hlow).
  - reflexivity.
  - reflexivity.
  - eexists _, child'. split; [reflexivity|]. split; [reflexivity|].
    split; [exact Hc|]. split; [exact Hfill|].
    apply Hlow; [lia|]. vm_compute. lia.
Defined.

Lemma well_formed_store_is_safe_witness :
  well_formed store_ann
  ∧ children store_ann !! "Ann" = Some child_ann
  ∧ Forall (λ r, 0 ≤ pw_confidence r ≤ 45)
           (get_practice_words typical_table child_ann).
Proof.
  assert (well_formed store_ann) as Hwf.
  { apply map_Forall_singleton. split; [discriminate|].
    split; [by eexists|]. each ltac:(eexists; split; [reflexivity|slider_ok]). }
  split; [exact Hwf|]. split; [reflexivity|].
  apply (well_formed_store_is_safe store_ann "Ann" child_ann "Ann" typical_table).
  - exact Hwf.
  - reflexivity.
Defined.

Lemma birthday_is_kept_witness :
  ∃ app' child',
    main app_ann (AddWord "Ann" "dog" "2024-05-05" true false 20)
    = Some (app', Rerun)
    ∧ children (data app_ann) !! "Ann" = Some child_ann
    ∧ birthday child_ann = Some "2024-01-15"
    ∧ children (data app') !! "Ann" = Some child'
    ∧ birthday child' = Some "2024-01-15".
Proof.
  eexists _, _. split; [reflexivity|]. split; [reflexivity|].
  split; [reflexivity|]. split; [reflexivity|].
  eapply (birthday_is_kept app_ann
            (AddWord "Ann" "dog" "2024-05-05" true false 20) _ Rerun
            "Ann" child_ann "2024-01-15"); reflexivity.
Defined.
